(** * Panorama viewer (app.js): a shallow embedding and its properties

    The program is one JavaScript file that keeps its whole state in
    module-level variables and mutates them from event handlers and from the
    animation-frame callback.  The embedding below keeps that shape:

    - JavaScript numbers are modelled as exact rationals [Q].  Rounding of
      IEEE doubles, [NaN] and the infinities are outside the model; every
      arithmetic identity below is an identity of exact arithmetic, and a
      property that rests on a division assumes its divisor is not zero.
    - the module-level variables are the fields of one record, [Globals];
    - every function that reads or writes them is a computation in the
      monad [JS], which threads the globals and propagates a thrown
      exception together with the globals as they were when it was thrown;
    - the sparse array [g_keys] is a finite map from key codes to booleans;
    - what a 2D context is asked to draw is recorded, in order, as a list of
      [DrawOp]s of the canvas it belongs to;
    - the browser's animation-frame registry is the list of handles that are
      scheduled and not yet cancelled. *)

From Stdlib Require Import QArith Qminmax Qround Qabs Lqa Lia ZArith Bool List.
From stdpp Require Import base gmap strings.
Import ListNotations.

Local Open Scope Q_scope.

(** ** Numbers *)

Module Num.

(** [x <= y] on numbers, as a boolean. *)
Definition leb (x y : Q) : bool := Qle_bool x y.

(** [x < y] on numbers, as a boolean. *)
Definition ltb (x y : Q) : bool := negb (Qle_bool y x).

(** [Math.max(x, y)]. *)
Definition Math_max (x y : Q) : Q := Qmax x y.

(** [Math.round(x)]: the nearest integer, a tie going up. *)
Definition Math_round (x : Q) : Z := Qfloor (x + (1 # 2)).

End Num.

Import Num.

(** ** Exceptions and completions *)

(** What the program can throw: the [Error] of a failed [assert], with its
    message, and the [TypeError] the language raises when a property of
    [undefined] is read, here with the name of the variable that held
    [undefined]. *)
Inductive exn : Type :=
| Error (message : string)
| TypeError (variable : string).

(** How the evaluation of a function body ends. *)
Inductive completion (A : Type) : Type :=
| Normal (value : A)
| Throw (e : exn).
Arguments Normal {A} value.
Arguments Throw {A} e.

#[global] Instance completion_ret : MRet completion := @Normal.
#[global] Instance completion_bind : MBind completion := fun A B k c =>
  match c with
  | Normal a => k a
  | Throw e => Throw e
  end.

(** ** The DOM objects the program touches *)

Module Point.
Record t : Type := { x : Q; y : Q }.
End Point.

Module Rect.
(** The part of [getBoundingClientRect()] that the program reads. *)
Record t : Type := { left : Q; top : Q; width : Q; height : Q }.
End Rect.

Module Image.
(** A loaded [HTMLImageElement]. *)
Record t : Type := { src : string; width : Q; height : Q }.
End Image.

(** References to the image elements held in module-level variables. *)
Inductive ImageRef : Type :=
| RefBackgroundImage | RefForegroundImage | RefBorderImage.

(** References to the canvas elements held in module-level variables. *)
Inductive CanvasRef : Type :=
| RefCanvas | RefBackgroundCanvas | RefForegroundCanvas | RefBorderCanvas.

(** What can be passed as the image of [drawImage]. *)
Inductive Drawable : Type :=
| OfImage (r : ImageRef)
| OfCanvas (r : CanvasRef).

(** The operations the program performs on a 2D context. *)
Inductive DrawOp : Type :=
| SetFillStyle (style : string)
| FillRect (x y w h : Q)
| DrawImage3 (image : Drawable) (dx dy : Q)
| DrawImage9 (image : Drawable) (sx sy sWidth sHeight dx dy dWidth dHeight : Q).

Module Canvas.
(** An [HTMLCanvasElement] with its 2D context.  [rect] is where layout
    has put the element; [imageSmoothingQuality] is [None] on a context
    that does not have the property; [drawn] is the history of what the
    context was asked to do, oldest first.  The element stores the width
    and height it is assigned as they are, which is what a browser does
    with a whole number from 0 to 2147483647; what it makes of any other
    number is not modelled, and a property that needs the size the element
    keeps to be the size of the layout asks for a layout in whole pixels. *)
Record t : Type := {
  width : Q;
  height : Q;
  rect : Rect.t;
  imageSmoothingQuality : option string;
  drawn : list DrawOp
}.

Definition set_width (v : Q) (c : t) : t :=
  {| width := v; height := height c; rect := rect c;
     imageSmoothingQuality := imageSmoothingQuality c; drawn := drawn c |}.

Definition set_height (v : Q) (c : t) : t :=
  {| width := width c; height := v; rect := rect c;
     imageSmoothingQuality := imageSmoothingQuality c; drawn := drawn c |}.

Definition set_imageSmoothingQuality (v : string) (c : t) : t :=
  {| width := width c; height := height c; rect := rect c;
     imageSmoothingQuality := Some v; drawn := drawn c |}.

Definition set_rect (v : Rect.t) (c : t) : t :=
  {| width := width c; height := height c; rect := v;
     imageSmoothingQuality := imageSmoothingQuality c; drawn := drawn c |}.

(** Append one operation to the history of the context. *)
Definition record (op : DrawOp) (c : t) : t :=
  {| width := width c; height := height c; rect := rect c;
     imageSmoothingQuality := imageSmoothingQuality c;
     drawn := drawn c ++ [op] |}.

(** [document.createElement("canvas")]: 300 by 150, nothing drawn. *)
Definition create : t :=
  {| width := 300; height := 150;
     rect := {| Rect.left := 0; Rect.top := 0; Rect.width := 300; Rect.height := 150 |};
     imageSmoothingQuality := Some "low"%string; drawn := [] |}.
End Canvas.

(** Truthiness of a string-valued property that may be [undefined]. *)
Definition truthy (v : option string) : bool :=
  match v with
  | None => false
  | Some s => negb (String.eqb s EmptyString)
  end.

(** ** The module-level state *)

(** One field per module-level variable of app.js, with the variable's name.
    The image variables and [canvas] are [undefined] until [main] assigns
    them.  The last two fields are the browser's side of
    [requestAnimationFrame]: the handles that are scheduled and not
    cancelled, and the next handle it will hand out. *)
Record Globals : Type := {
  canvas : option Canvas.t;
  backgroundImage : option Image.t;
  backgroundCanvas : Canvas.t;
  foregroundImage : option Image.t;
  foregroundCanvas : Canvas.t;
  borderImage : option Image.t;
  borderCanvas : Canvas.t;
  imageScale : Q;
  ready : bool;
  animating : bool;
  imageOffsetX : Q;
  animationRequestID : option nat;
  mouse : Point.t;
  previousTime : Q;
  g_keys : gmap nat bool;
  frameRequests : list nat;
  nextRequestID : nat
}.

Definition set_canvas (v : option Canvas.t) (g : Globals) : Globals :=
  {| canvas := v; backgroundImage := backgroundImage g;
     backgroundCanvas := backgroundCanvas g;
     foregroundImage := foregroundImage g;
     foregroundCanvas := foregroundCanvas g; borderImage := borderImage g;
     borderCanvas := borderCanvas g; imageScale := imageScale g;
     ready := ready g; animating := animating g;
     imageOffsetX := imageOffsetX g;
     animationRequestID := animationRequestID g; mouse := mouse g;
     previousTime := previousTime g; g_keys := g_keys g;
     frameRequests := frameRequests g; nextRequestID := nextRequestID g |}.

Definition set_backgroundImage (v : option Image.t) (g : Globals) : Globals :=
  {| canvas := canvas g; backgroundImage := v;
     backgroundCanvas := backgroundCanvas g;
     foregroundImage := foregroundImage g;
     foregroundCanvas := foregroundCanvas g; borderImage := borderImage g;
     borderCanvas := borderCanvas g; imageScale := imageScale g;
     ready := ready g; animating := animating g;
     imageOffsetX := imageOffsetX g;
     animationRequestID := animationRequestID g; mouse := mouse g;
     previousTime := previousTime g; g_keys := g_keys g;
     frameRequests := frameRequests g; nextRequestID := nextRequestID g |}.

Definition set_backgroundCanvas (v : Canvas.t) (g : Globals) : Globals :=
  {| canvas := canvas g; backgroundImage := backgroundImage g;
     backgroundCanvas := v; foregroundImage := foregroundImage g;
     foregroundCanvas := foregroundCanvas g; borderImage := borderImage g;
     borderCanvas := borderCanvas g; imageScale := imageScale g;
     ready := ready g; animating := animating g;
     imageOffsetX := imageOffsetX g;
     animationRequestID := animationRequestID g; mouse := mouse g;
     previousTime := previousTime g; g_keys := g_keys g;
     frameRequests := frameRequests g; nextRequestID := nextRequestID g |}.

Definition set_foregroundImage (v : option Image.t) (g : Globals) : Globals :=
  {| canvas := canvas g; backgroundImage := backgroundImage g;
     backgroundCanvas := backgroundCanvas g; foregroundImage := v;
     foregroundCanvas := foregroundCanvas g; borderImage := borderImage g;
     borderCanvas := borderCanvas g; imageScale := imageScale g;
     ready := ready g; animating := animating g;
     imageOffsetX := imageOffsetX g;
     animationRequestID := animationRequestID g; mouse := mouse g;
     previousTime := previousTime g; g_keys := g_keys g;
     frameRequests := frameRequests g; nextRequestID := nextRequestID g |}.

Definition set_foregroundCanvas (v : Canvas.t) (g : Globals) : Globals :=
  {| canvas := canvas g; backgroundImage := backgroundImage g;
     backgroundCanvas := backgroundCanvas g;
     foregroundImage := foregroundImage g; foregroundCanvas := v;
     borderImage := borderImage g; borderCanvas := borderCanvas g;
     imageScale := imageScale g; ready := ready g; animating := animating g;
     imageOffsetX := imageOffsetX g;
     animationRequestID := animationRequestID g; mouse := mouse g;
     previousTime := previousTime g; g_keys := g_keys g;
     frameRequests := frameRequests g; nextRequestID := nextRequestID g |}.

Definition set_borderImage (v : option Image.t) (g : Globals) : Globals :=
  {| canvas := canvas g; backgroundImage := backgroundImage g;
     backgroundCanvas := backgroundCanvas g;
     foregroundImage := foregroundImage g;
     foregroundCanvas := foregroundCanvas g; borderImage := v;
     borderCanvas := borderCanvas g; imageScale := imageScale g;
     ready := ready g; animating := animating g;
     imageOffsetX := imageOffsetX g;
     animationRequestID := animationRequestID g; mouse := mouse g;
     previousTime := previousTime g; g_keys := g_keys g;
     frameRequests := frameRequests g; nextRequestID := nextRequestID g |}.

Definition set_borderCanvas (v : Canvas.t) (g : Globals) : Globals :=
  {| canvas := canvas g; backgroundImage := backgroundImage g;
     backgroundCanvas := backgroundCanvas g;
     foregroundImage := foregroundImage g;
     foregroundCanvas := foregroundCanvas g; borderImage := borderImage g;
     borderCanvas := v; imageScale := imageScale g; ready := ready g;
     animating := animating g; imageOffsetX := imageOffsetX g;
     animationRequestID := animationRequestID g; mouse := mouse g;
     previousTime := previousTime g; g_keys := g_keys g;
     frameRequests := frameRequests g; nextRequestID := nextRequestID g |}.

Definition set_imageScale (v : Q) (g : Globals) : Globals :=
  {| canvas := canvas g; backgroundImage := backgroundImage g;
     backgroundCanvas := backgroundCanvas g;
     foregroundImage := foregroundImage g;
     foregroundCanvas := foregroundCanvas g; borderImage := borderImage g;
     borderCanvas := borderCanvas g; imageScale := v; ready := ready g;
     animating := animating g; imageOffsetX := imageOffsetX g;
     animationRequestID := animationRequestID g; mouse := mouse g;
     previousTime := previousTime g; g_keys := g_keys g;
     frameRequests := frameRequests g; nextRequestID := nextRequestID g |}.

Definition set_ready (v : bool) (g : Globals) : Globals :=
  {| canvas := canvas g; backgroundImage := backgroundImage g;
     backgroundCanvas := backgroundCanvas g;
     foregroundImage := foregroundImage g;
     foregroundCanvas := foregroundCanvas g; borderImage := borderImage g;
     borderCanvas := borderCanvas g; imageScale := imageScale g; ready := v;
     animating := animating g; imageOffsetX := imageOffsetX g;
     animationRequestID := animationRequestID g; mouse := mouse g;
     previousTime := previousTime g; g_keys := g_keys g;
     frameRequests := frameRequests g; nextRequestID := nextRequestID g |}.

Definition set_animating (v : bool) (g : Globals) : Globals :=
  {| canvas := canvas g; backgroundImage := backgroundImage g;
     backgroundCanvas := backgroundCanvas g;
     foregroundImage := foregroundImage g;
     foregroundCanvas := foregroundCanvas g; borderImage := borderImage g;
     borderCanvas := borderCanvas g; imageScale := imageScale g;
     ready := ready g; animating := v; imageOffsetX := imageOffsetX g;
     animationRequestID := animationRequestID g; mouse := mouse g;
     previousTime := previousTime g; g_keys := g_keys g;
     frameRequests := frameRequests g; nextRequestID := nextRequestID g |}.

Definition set_imageOffsetX (v : Q) (g : Globals) : Globals :=
  {| canvas := canvas g; backgroundImage := backgroundImage g;
     backgroundCanvas := backgroundCanvas g;
     foregroundImage := foregroundImage g;
     foregroundCanvas := foregroundCanvas g; borderImage := borderImage g;
     borderCanvas := borderCanvas g; imageScale := imageScale g;
     ready := ready g; animating := animating g; imageOffsetX := v;
     animationRequestID := animationRequestID g; mouse := mouse g;
     previousTime := previousTime g; g_keys := g_keys g;
     frameRequests := frameRequests g; nextRequestID := nextRequestID g |}.

Definition set_animationRequestID (v : option nat) (g : Globals) : Globals :=
  {| canvas := canvas g; backgroundImage := backgroundImage g;
     backgroundCanvas := backgroundCanvas g;
     foregroundImage := foregroundImage g;
     foregroundCanvas := foregroundCanvas g; borderImage := borderImage g;
     borderCanvas := borderCanvas g; imageScale := imageScale g;
     ready := ready g; animating := animating g;
     imageOffsetX := imageOffsetX g; animationRequestID := v;
     mouse := mouse g; previousTime := previousTime g; g_keys := g_keys g;
     frameRequests := frameRequests g; nextRequestID := nextRequestID g |}.

Definition set_mouse (v : Point.t) (g : Globals) : Globals :=
  {| canvas := canvas g; backgroundImage := backgroundImage g;
     backgroundCanvas := backgroundCanvas g;
     foregroundImage := foregroundImage g;
     foregroundCanvas := foregroundCanvas g; borderImage := borderImage g;
     borderCanvas := borderCanvas g; imageScale := imageScale g;
     ready := ready g; animating := animating g;
     imageOffsetX := imageOffsetX g;
     animationRequestID := animationRequestID g; mouse := v;
     previousTime := previousTime g; g_keys := g_keys g;
     frameRequests := frameRequests g; nextRequestID := nextRequestID g |}.

Definition set_previousTime (v : Q) (g : Globals) : Globals :=
  {| canvas := canvas g; backgroundImage := backgroundImage g;
     backgroundCanvas := backgroundCanvas g;
     foregroundImage := foregroundImage g;
     foregroundCanvas := foregroundCanvas g; borderImage := borderImage g;
     borderCanvas := borderCanvas g; imageScale := imageScale g;
     ready := ready g; animating := animating g;
     imageOffsetX := imageOffsetX g;
     animationRequestID := animationRequestID g; mouse := mouse g;
     previousTime := v; g_keys := g_keys g; frameRequests := frameRequests g;
     nextRequestID := nextRequestID g |}.

Definition set_g_keys (v : gmap nat bool) (g : Globals) : Globals :=
  {| canvas := canvas g; backgroundImage := backgroundImage g;
     backgroundCanvas := backgroundCanvas g;
     foregroundImage := foregroundImage g;
     foregroundCanvas := foregroundCanvas g; borderImage := borderImage g;
     borderCanvas := borderCanvas g; imageScale := imageScale g;
     ready := ready g; animating := animating g;
     imageOffsetX := imageOffsetX g;
     animationRequestID := animationRequestID g; mouse := mouse g;
     previousTime := previousTime g; g_keys := v;
     frameRequests := frameRequests g; nextRequestID := nextRequestID g |}.

Definition set_frameRequests (v : list nat) (g : Globals) : Globals :=
  {| canvas := canvas g; backgroundImage := backgroundImage g;
     backgroundCanvas := backgroundCanvas g;
     foregroundImage := foregroundImage g;
     foregroundCanvas := foregroundCanvas g; borderImage := borderImage g;
     borderCanvas := borderCanvas g; imageScale := imageScale g;
     ready := ready g; animating := animating g;
     imageOffsetX := imageOffsetX g;
     animationRequestID := animationRequestID g; mouse := mouse g;
     previousTime := previousTime g; g_keys := g_keys g; frameRequests := v;
     nextRequestID := nextRequestID g |}.

Definition set_nextRequestID (v : nat) (g : Globals) : Globals :=
  {| canvas := canvas g; backgroundImage := backgroundImage g;
     backgroundCanvas := backgroundCanvas g;
     foregroundImage := foregroundImage g;
     foregroundCanvas := foregroundCanvas g; borderImage := borderImage g;
     borderCanvas := borderCanvas g; imageScale := imageScale g;
     ready := ready g; animating := animating g;
     imageOffsetX := imageOffsetX g;
     animationRequestID := animationRequestID g; mouse := mouse g;
     previousTime := previousTime g; g_keys := g_keys g;
     frameRequests := frameRequests g; nextRequestID := v |}.

(** The state in which the script starts: the three off-screen canvases are
    created, everything else has its initialiser. *)
Definition initial : Globals :=
  {| canvas := None;
     backgroundImage := None; backgroundCanvas := Canvas.create;
     foregroundImage := None; foregroundCanvas := Canvas.create;
     borderImage := None; borderCanvas := Canvas.create;
     imageScale := 1; ready := false; animating := false;
     imageOffsetX := 0; animationRequestID := None;
     mouse := {| Point.x := 0; Point.y := 0 |};
     previousTime := 0; g_keys := ∅;
     frameRequests := []; nextRequestID := 1%nat |}.

(** ** The monad of the program's functions *)

(** A function body runs on the globals and ends normally with a value or
    abruptly with an exception; either way the globals are as the body left
    them. *)
Definition JS (A : Type) : Type := Globals -> completion A * Globals.

#[global] Instance JS_ret : MRet JS := fun A a g => (Normal a, g).
#[global] Instance JS_bind : MBind JS := fun A B k m g =>
  match m g with
  | (Normal a, g') => k a g'
  | (Throw e, g') => (Throw e, g')
  end.

Definition gets {A : Type} (f : Globals -> A) : JS A := fun g => (Normal (f g), g).
Definition modify (f : Globals -> Globals) : JS unit := fun g => (Normal tt, f g).
Definition lift {A : Type} (c : completion A) : JS A := fun g => (c, g).
Definition throw {A : Type} (e : exn) : JS A := fun g => (Throw e, g).

(** Reading through a variable that may hold [undefined]. *)
Definition defined {A : Type} (name : string) (v : option A) : JS A :=
  match v with
  | Some a => mret a
  | None => throw (TypeError name)
  end.

Definition getImage (r : ImageRef) : JS Image.t :=
  match r with
  | RefBackgroundImage => gets backgroundImage ≫= defined "backgroundImage"
  | RefForegroundImage => gets foregroundImage ≫= defined "foregroundImage"
  | RefBorderImage => gets borderImage ≫= defined "borderImage"
  end.

Definition getCanvas (r : CanvasRef) : JS Canvas.t :=
  match r with
  | RefCanvas => gets canvas ≫= defined "canvas"
  | RefBackgroundCanvas => gets backgroundCanvas
  | RefForegroundCanvas => gets foregroundCanvas
  | RefBorderCanvas => gets borderCanvas
  end.

Definition putCanvas (r : CanvasRef) (c : Canvas.t) : JS unit :=
  match r with
  | RefCanvas => modify (set_canvas (Some c))
  | RefBackgroundCanvas => modify (set_backgroundCanvas c)
  | RefForegroundCanvas => modify (set_foregroundCanvas c)
  | RefBorderCanvas => modify (set_borderCanvas c)
  end.

(** Mutate the canvas element a reference points to. *)
Definition onCanvas (r : CanvasRef) (f : Canvas.t -> Canvas.t) : JS unit :=
  c ← getCanvas r; putCanvas r (f c).

(** [source.width] and [source.height] of an image or a canvas. *)
Definition widthOf (d : Drawable) : JS Q :=
  match d with
  | OfImage r => i ← getImage r; mret (Image.width i)
  | OfCanvas r => c ← getCanvas r; mret (Canvas.width c)
  end.

Definition heightOf (d : Drawable) : JS Q :=
  match d with
  | OfImage r => i ← getImage r; mret (Image.height i)
  | OfCanvas r => c ← getCanvas r; mret (Canvas.height c)
  end.

(** ** Utilities (app.js, lines 8-44) *)

(** [assert(condition, message)]: throws [Error(message)] when the condition
    does not hold. *)
Definition assert_msg (condition : bool) (message : string) : completion unit :=
  if negb condition then Throw (Error message) else Normal tt.

(** [assert(condition)], with the default message. *)
Definition assert (condition : bool) : completion unit :=
  assert_msg condition "Assertion failed!".

(** [clamp(value, minValue, maxValue)]. *)
Definition clamp (value minValue maxValue : Q) : completion Q :=
  _ ← assert (leb minValue maxValue);
  if ltb value minValue then
    mret minValue
  else if ltb maxValue value then
    mret maxValue
  else
    mret value.

(** [getMousePosition(el, evt)], with the event given by its [clientX] and
    [clientY]. *)
Definition getMousePosition (el : Canvas.t) (clientX clientY : Q) : Point.t :=
  let rect := Canvas.rect el in
  {| Point.x := clientX - Rect.left rect; Point.y := clientY - Rect.top rect |}.

(** ** Constants (app.js, lines 142-158) *)

Definition panningSpeed : Q := 800.

Definition KEY_ARROW_LEFT : nat := 37.
Definition KEY_ARROW_UP : nat := 38.
Definition KEY_ARROW_RIGHT : nat := 39.
Definition KEY_ARROW_DOWN : nat := 40.

Definition KEY_A : nat := 65.
Definition KEY_W : nat := 87.
Definition KEY_D : nat := 68.
Definition KEY_S : nat := 83.

(** ** Keyboard (app.js, lines 160-186) *)

(** [window.onkeydown] and [window.onkeyup]. *)
Definition onkeydown (keyCode : nat) : JS unit :=
  modify (fun g => set_g_keys (<[keyCode := true]> (g_keys g)) g).

Definition onkeyup (keyCode : nat) : JS unit :=
  modify (fun g => set_g_keys (<[keyCode := false]> (g_keys g)) g).

(** [isKeyDown(keyCode)]: [!!g_keys[keyCode]], a hole of the array reading
    as [undefined]. *)
Definition isKeyDown (keyCode : nat) (g : Globals) : bool :=
  match g_keys g !! keyCode with
  | Some b => b
  | None => false
  end.

(** [isOneKeyDown(keyCodes)]: the loop returns at the first key that is
    down. *)
Fixpoint isOneKeyDown (keyCodes : list nat) (g : Globals) : bool :=
  match keyCodes with
  | [] => false
  | keyCode :: rest => if isKeyDown keyCode g then true else isOneKeyDown rest g
  end.

(** ** Scaling (app.js, lines 199-250) *)

(** [ctx.op(...)] on the 2D context of the canvas [r]. *)
Definition ctx (r : CanvasRef) (op : DrawOp) : JS unit :=
  onCanvas r (Canvas.record op).

(** [resizeImage(source, target, scale)].  [source] and [target] are
    references, so what is read from [source] after [target] was written is
    read from the globals again. *)
Definition resizeImage (source : Drawable) (target : CanvasRef) (scale : Q) : JS unit :=
  w ← widthOf source;
  _ ← onCanvas target (Canvas.set_width (inject_Z (Math_round (scale * w))));
  h ← heightOf source;
  _ ← onCanvas target (Canvas.set_height (inject_Z (Math_round (scale * h))));
  t ← getCanvas target;
  _ ← (if truthy (Canvas.imageSmoothingQuality t)
       then onCanvas target (Canvas.set_imageSmoothingQuality "high")
       else mret tt);
  let image := source in
  let sx := 0 in
  let sy := 0 in
  sWidth ← widthOf source;
  sHeight ← heightOf source;
  let dx := 0 in
  let dy := 0 in
  dWidth ← widthOf (OfCanvas target);
  dHeight ← heightOf (OfCanvas target);
  ctx target (DrawImage9 image sx sy sWidth sHeight dx dy dWidth dHeight).

(** [resizeImages()]. *)
Definition resizeImages : JS unit :=
  scale ← gets imageScale;
  _ ← resizeImage (OfImage RefBackgroundImage) RefBackgroundCanvas scale;
  scale ← gets imageScale;
  _ ← resizeImage (OfImage RefForegroundImage) RefForegroundCanvas scale;
  scale ← gets imageScale;
  resizeImage (OfImage RefBorderImage) RefBorderCanvas (scale * 1.8).

(** [resizeCanvas()], also the body of [window.onresize]. *)
Definition resizeCanvas : JS unit :=
  rdy ← gets ready;
  if negb rdy then mret tt else
  el ← getCanvas RefCanvas;
  let width := Rect.width (Canvas.rect el) in
  let height := Rect.height (Canvas.rect el) in
  _ ← onCanvas RefCanvas (Canvas.set_width width);
  _ ← onCanvas RefCanvas (Canvas.set_height height);
  canvasHeight ← heightOf (OfCanvas RefCanvas);
  foregroundHeight ← heightOf (OfImage RefForegroundImage);
  _ ← modify (set_imageScale (canvasHeight / foregroundHeight));
  resizeImages.

(** The window changes: layout gives the canvas element a new size (when
    there is one), then [window.onresize] runs. *)
Definition onresize (width height : Q) : JS unit :=
  _ ← modify (fun g =>
        match canvas g with
        | Some el =>
            let r := Canvas.rect el in
            set_canvas (Some (Canvas.set_rect
              {| Rect.left := Rect.left r; Rect.top := Rect.top r;
                 Rect.width := width; Rect.height := height |} el)) g
        | None => g
        end);
  resizeCanvas.

(** ** The browser's animation-frame registry *)

(** [window.requestAnimationFrame(animate)]: schedules a call of [animate]
    and returns its handle. *)
Definition requestAnimationFrame : JS nat :=
  id ← gets nextRequestID;
  _ ← modify (fun g => set_frameRequests (frameRequests g ++ [id]) g);
  _ ← modify (set_nextRequestID (S id));
  mret id.

(** [window.cancelAnimationFrame(handle)]: unschedules the call with that
    handle; a handle that is [undefined] or not scheduled cancels nothing. *)
Definition cancelAnimationFrame (handle : option nat) : JS unit :=
  match handle with
  | None => mret tt
  | Some id =>
      modify (fun g =>
        set_frameRequests (List.filter (fun i => negb (Nat.eqb i id)) (frameRequests g)) g)
  end.

(** ** The update phase (app.js, lines 308-324) *)

(** [update(dt)]. *)
Definition update (dt : Q) : JS unit :=
  let imageMovement := panningSpeed * dt / 1000 in
  canvasWidth ← widthOf (OfCanvas RefCanvas);
  imageWidth ← widthOf (OfCanvas RefForegroundCanvas);
  _ ← lift (assert (ltb canvasWidth imageWidth));
  let limit := imageWidth - canvasWidth in
  panLeft ← gets (isOneKeyDown [KEY_ARROW_LEFT; KEY_A]);
  if panLeft : bool then
    offset ← gets imageOffsetX;
    v ← lift (clamp (offset - imageMovement) 0 limit);
    modify (set_imageOffsetX v)
  else
    panRight ← gets (isOneKeyDown [KEY_ARROW_RIGHT; KEY_D]);
    if panRight : bool then
      offset ← gets imageOffsetX;
      v ← lift (clamp (offset + imageMovement) 0 limit);
      modify (set_imageOffsetX v)
    else
      mret tt.

(** ** The render phase (app.js, lines 332-387) *)

(** [render(dt)].  The block under [if (false)] never runs and is left
    out. *)
Definition render (dt : Q) : JS unit :=
  rdy ← gets ready;
  if negb rdy then mret tt else
  _ ← getCanvas RefCanvas;
  _ ← ctx RefCanvas (SetFillStyle "#000");
  canvasWidth ← widthOf (OfCanvas RefCanvas);
  canvasHeight ← heightOf (OfCanvas RefCanvas);
  _ ← ctx RefCanvas (FillRect 0 0 canvasWidth canvasHeight);
  borderWidth ← widthOf (OfCanvas RefBorderCanvas);
  borderHeight ← heightOf (OfCanvas RefBorderCanvas);
  (* Draw foreground image *)
  offset ← gets imageOffsetX;
  _ ← (let image := OfCanvas RefForegroundCanvas in
       let dx := - offset in
       let dy := 0 in
       ctx RefCanvas (DrawImage3 image dx dy));
  (* Draw portion of background image *)
  m ← gets mouse;
  offset ← gets imageOffsetX;
  _ ← (let image := OfCanvas RefBackgroundCanvas in
       let backgroundWidth := borderWidth * 0.937 in
       let backgroundHeight := borderHeight * 0.937 in
       let sx := Point.x m + offset - backgroundWidth / 2 in
       let sy := Point.y m - backgroundHeight / 2 in
       let sWidth := backgroundWidth in
       let sHeight := backgroundHeight in
       let dx := Point.x m - backgroundWidth / 2 in
       let dy := Point.y m - backgroundHeight / 2 in
       let dWidth := backgroundWidth in
       let dHeight := backgroundHeight in
       ctx RefCanvas (DrawImage9 image sx sy sWidth sHeight dx dy dWidth dHeight));
  (* Draw border image *)
  m ← gets mouse;
  let image := OfCanvas RefBorderCanvas in
  let sx := Point.x m - borderWidth / 2 in
  let sy := Point.y m - borderHeight / 2 in
  ctx RefCanvas (DrawImage3 image sx sy).

(** ** The frame driver (app.js, lines 255-300) *)

(** [step(dt)]. *)
Definition step (dt : Q) : JS unit :=
  _ ← update dt;
  render dt.

(** [stopAnimation()]. *)
Definition stopAnimation : JS unit :=
  _ ← modify (set_animating false);
  handle ← gets animationRequestID;
  cancelAnimationFrame handle.

(** The elapsed time [animate] hands to [step]. *)
Definition effectiveDt (currentTime previousTime : Q) : Q :=
  Math_max (currentTime - previousTime) (1000 / 60).

(** [animate(currentTime)]. *)
Definition animate (currentTime : Q) : JS unit :=
  a ← gets animating;
  if negb a then mret tt else
  previous ← gets previousTime;
  let dt := effectiveDt currentTime previous in
  _ ← modify (set_previousTime currentTime);
  _ ← step dt;
  id ← requestAnimationFrame;
  modify (set_animationRequestID (Some id)).

(** [startAnimation()]. *)
Definition startAnimation : JS unit :=
  a ← gets animating;
  if a : bool then mret tt else
  _ ← modify (set_animating true);
  _ ← modify (set_previousTime 0);
  previous ← gets previousTime;
  animate previous.

(** The browser runs a scheduled frame callback: the request leaves the
    registry and [animate] is called with the frame's timestamp.  A handle
    that is not scheduled (never requested, already run, or cancelled) runs
    nothing. *)
Definition runFrame (id : nat) (currentTime : Q) : JS unit :=
  scheduled ← gets frameRequests;
  if existsb (Nat.eqb id) scheduled then
    _ ← cancelAnimationFrame (Some id);
    animate currentTime
  else
    mret tt.

(** ** Start-up and the mouse (app.js, lines 389-422) *)

(** The [mousemove] listener that [main] adds to the canvas. *)
Definition onmousemove (clientX clientY : Q) : JS unit :=
  el ← getCanvas RefCanvas;
  let p := getMousePosition el clientX clientY in
  _ ← modify (fun g => set_mouse {| Point.x := Point.x p; Point.y := Point.y (mouse g) |} g);
  modify (fun g => set_mouse {| Point.x := Point.x (mouse g); Point.y := Point.y p |} g).

(** [typeof v !== "undefined"]. *)
Definition isDefined {A : Type} (v : option A) : bool :=
  match v with Some _ => true | None => false end.

(** [main()] from the point where [Promise.all] has resolved with the three
    images; [el] is what [document.querySelector("#canvas")] finds. *)
Definition main (fg bg border : Image.t) (el : option Canvas.t) : JS unit :=
  _ ← modify (set_foregroundImage (Some fg));
  _ ← modify (set_backgroundImage (Some bg));
  _ ← modify (set_borderImage (Some border));
  _ ← (v ← gets foregroundImage; lift (assert (isDefined v)));
  _ ← (v ← gets backgroundImage; lift (assert (isDefined v)));
  _ ← (v ← gets borderImage; lift (assert (isDefined v)));
  _ ← (fw ← widthOf (OfImage RefForegroundImage);
       bw ← widthOf (OfImage RefBackgroundImage);
       lift (assert (Qeq_bool fw bw)));
  _ ← (fh ← heightOf (OfImage RefForegroundImage);
       bh ← heightOf (OfImage RefBackgroundImage);
       lift (assert (Qeq_bool fh bh)));
  _ ← modify (set_canvas el);
  _ ← modify (set_ready true);
  _ ← resizeCanvas;
  startAnimation.

(** ** Runs *)

(** What can happen between two frames, and the update of a frame. *)
Inductive Input : Type :=
| KeyDown (keyCode : nat)
| KeyUp (keyCode : nat)
| MouseMove (clientX clientY : Q)
| Update (dt : Q).

Definition dispatch (i : Input) : JS unit :=
  match i with
  | KeyDown keyCode => onkeydown keyCode
  | KeyUp keyCode => onkeyup keyCode
  | MouseMove clientX clientY => onmousemove clientX clientY
  | Update dt => update dt
  end.

(** The inputs are handled one after the other. *)
Fixpoint run (inputs : list Input) : JS unit :=
  match inputs with
  | [] => mret tt
  | i :: rest => _ ← dispatch i; run rest
  end.

(** What the browser can call into the script: [main] once the images are
    there, the two functions that start and stop the loop, a scheduled
    frame, a resize of the window, and the inputs above. *)
Inductive Control : Type :=
| Boot (fg bg border : Image.t) (el : option Canvas.t)
| Start
| Stop
| Frame (id : nat) (currentTime : Q)
| Resize (width height : Q)
| Handle (i : Input).

Definition control (c : Control) : JS unit :=
  match c with
  | Boot fg bg border el => main fg bg border el
  | Start => startAnimation
  | Stop => stopAnimation
  | Frame id currentTime => runFrame id currentTime
  | Resize width height => onresize width height
  | Handle i => dispatch i
  end.

(** The event loop: an exception that escapes one call is reported and the
    next call finds the globals as the failed one left them. *)
Fixpoint eventLoop (cs : list Control) (g : Globals) : Globals :=
  match cs with
  | [] => g
  | c :: rest => eventLoop rest (snd (control c g))
  end.

(** ** A concrete viewer *)

Module Demo.

Definition happy : Image.t :=
  {| Image.src := "./HappyPanorama.jpg"; Image.width := 3000; Image.height := 1500 |}.
Definition sad : Image.t :=
  {| Image.src := "./SadPanorama.jpg"; Image.width := 3000; Image.height := 1500 |}.
Definition phone : Image.t :=
  {| Image.src := "./phone-landscape.png"; Image.width := 400; Image.height := 200 |}.

(** The canvas element of the page, laid out at 800 by 600. *)
Definition element : Canvas.t :=
  {| Canvas.width := 300; Canvas.height := 150;
     Canvas.rect := {| Rect.left := 10; Rect.top := 20;
                       Rect.width := 800; Rect.height := 600 |};
     Canvas.imageSmoothingQuality := Some "low"%string;
     Canvas.drawn := [] |}.

(** The globals once [main] has returned. *)
Definition started : Globals :=
  Eval vm_compute in snd (main happy sad phone (Some element) initial).

(** The right arrow was held for a second, so the offset is at its limit of
    400; then the key was released and the window widened to 1000, which
    leaves a limit of 200. *)
Definition widened : Globals :=
  Eval vm_compute in
    snd ((_ ← run [KeyDown KEY_ARROW_RIGHT; Update 1000; KeyUp KEY_ARROW_RIGHT];
          onresize 1000 600) started).

(** The window was widened to 2000 instead: the canvas is now wider than the
    scaled foreground, which is 1200 wide. *)
Definition tooWide : Globals :=
  Eval vm_compute in snd (onresize 2000 600 started).

(** The mouse at (100, 100), an offset of 50 and a scaled border of 200 by
    150. *)
Definition lens : Globals :=
  Eval vm_compute in
    set_mouse {| Point.x := 100; Point.y := 100 |}
      (set_imageOffsetX 50
         (set_borderCanvas
            (Canvas.set_width 200 (Canvas.set_height 150 (borderCanvas started)))
            started)).

(** The started viewer after [stopAnimation()]. *)
Definition stopped : Globals :=
  Eval vm_compute in snd (stopAnimation started).

(** The offset is at 400 and the left arrow is held. *)
Definition leftHeld : Globals :=
  Eval vm_compute in
    snd (run [KeyDown KEY_ARROW_RIGHT; Update 1000; KeyUp KEY_ARROW_RIGHT;
              KeyDown KEY_ARROW_LEFT] started).

(** An image that is not a panorama: scaled to the height of the canvas
    element it is 600 wide, less than the 800 of the element. *)
Definition square : Image.t :=
  {| Image.src := "./square.jpg"; Image.width := 500; Image.height := 500 |}.

End Demo.

(** ** Vocabulary of the properties *)

(** The main canvas and the scaled foreground are the given ones, and the
    offset is within the travel limit [scaledForegroundWidth - canvasWidth]. *)
Definition panInvariant (cv fg : Canvas.t) (g : Globals) : Prop :=
  canvas g = Some cv /\ foregroundCanvas g = fg /\
  0 <= imageOffsetX g /\ imageOffsetX g <= Canvas.width fg - Canvas.width cv.

(** The part of the globals that belongs to the frame driver. *)
Definition driverFields (g : Globals) : bool * option nat * list nat * nat :=
  (animating g, animationRequestID g, frameRequests g, nextRequestID g).

(** A computation that leaves the frame driver's part alone, however it
    ends. *)
Definition keepsDriver {A : Type} (m : JS A) : Prop :=
  forall g, driverFields (snd (m g)) = driverFields g.

(** No frame is scheduled, or the loop is active and the one scheduled frame
    is the one whose handle is stored. *)
Definition registryInvariant (g : Globals) : Prop :=
  frameRequests g = [] \/
  (animating g = true /\
   exists id, frameRequests g = [id] /\ animationRequestID g = Some id).

(** The offset and the ready flag, which only [update] and [main] write. *)
Definition panView (g : Globals) : Q * bool := (imageOffsetX g, ready g).

(** A computation that writes neither the offset nor the ready flag. *)
Definition keepsPan {A : Type} (m : JS A) : Prop :=
  forall g, panView (snd (m g)) = panView g.

(** Whether the viewer is ready and whether a canvas is bound. *)
Definition readyView (g : Globals) : bool * bool :=
  (ready g, isDefined (canvas g)).

(** A computation that writes neither [ready] nor binds or unbinds the
    canvas. *)
Definition keepsReadyView {A : Type} (m : JS A) : Prop :=
  forall g, readyView (snd (m g)) = readyView g.

(** No canvas is bound before the viewer is ready. *)
Definition unboundUntilReady (g : Globals) : Prop :=
  ready g = false -> canvas g = None.

(** A computation that keeps a property of the globals, however it ends. *)
Definition preserves {A : Type} (P : Globals -> Prop) (m : JS A) : Prop :=
  forall g, P g -> P (snd (m g)).

(** A span that starts at [start] and is [size] long lies within the span
    that starts at [start'] and is [size'] long. *)
Definition within (start size start' size' : Q) : Prop :=
  start' <= start /\ start + size <= start' + size'.

(** The centre of a span that starts at [start] and is [size] long. *)
Definition centre (start size : Q) : Q := start + size / 2.

(** Unfolding the monad. *)
Ltac js_unfold :=
  cbv beta iota delta
    [mbind mret JS_bind JS_ret completion_bind completion_ret gets modify lift
     throw defined getCanvas getImage putCanvas onCanvas widthOf heightOf ctx].

(** * Properties *)

(** ** Numbers *)

Module NumFacts.

Lemma leb_spec x y : BoolSpec (x <= y) (y < x) (leb x y).
Proof.
  unfold leb. destruct (Qle_bool x y) eqn:E; constructor.
  - now apply Qle_bool_iff.
  - apply Qnot_le_lt. intros H. apply Qle_bool_iff in H. congruence.
Qed.

Lemma ltb_spec x y : BoolSpec (x < y) (y <= x) (ltb x y).
Proof.
  unfold ltb. pose proof (leb_spec y x) as H. unfold leb in H.
  destruct H; simpl; now constructor.
Qed.

Lemma Math_max_spec x y :
  (x < y /\ Math_max x y = y) \/ (y <= x /\ Math_max x y = x).
Proof.
  unfold Math_max, Qmax, GenericMinMax.gmax.
  destruct (x ?= y) eqn:E.
  - right. split; [|reflexivity]. apply Qeq_alt in E. rewrite E. apply Qle_refl.
  - left. split; [|reflexivity]. now apply Qlt_alt.
  - right. split; [|reflexivity]. apply Qlt_le_weak. now apply Qgt_alt.
Qed.

Lemma Math_round_near x :
  inject_Z (Math_round x) - (1 # 2) <= x /\ x < inject_Z (Math_round x) + (1 # 2).
Proof.
  unfold Math_round.
  pose proof (Qfloor_le (x + (1 # 2))) as Hlo.
  pose proof (Qlt_floor (x + (1 # 2))) as Hhi.
  rewrite inject_Z_plus in Hhi. change (inject_Z 1) with 1 in Hhi.
  split; lra.
Qed.

Lemma Math_round_int (z : Z) : Math_round (inject_Z z) = z.
Proof.
  unfold Math_round.
  pose proof (Qfloor_le (inject_Z z + (1 # 2))) as Hlo.
  pose proof (Qlt_floor (inject_Z z + (1 # 2))) as Hhi.
  set (f := Qfloor (inject_Z z + (1 # 2))) in *.
  rewrite inject_Z_plus in Hhi. change (inject_Z 1) with 1 in Hhi.
  assert (H1 : inject_Z f < inject_Z (z + 1)).
  { rewrite inject_Z_plus. change (inject_Z 1) with 1. lra. }
  assert (H2 : inject_Z (z - 1) < inject_Z f).
  { unfold Z.sub. rewrite inject_Z_plus. rewrite inject_Z_opp.
    change (inject_Z 1) with 1. lra. }
  rewrite <- Zlt_Qlt in H1, H2. lia.
Qed.

End NumFacts.

Import NumFacts.

(** ** clamp *)

Lemma clamp_in_range value minValue maxValue :
  minValue <= maxValue ->
  exists r, clamp value minValue maxValue = Normal r /\
            minValue <= r /\ r <= maxValue /\
            (minValue <= value -> value <= maxValue -> r = value).
Proof.
  intros Hle. unfold clamp, assert, assert_msg. js_unfold.
  destruct (leb_spec minValue maxValue) as [_|Hgt]; [|lra].
  cbv beta iota delta [negb].
  destruct (ltb_spec value minValue) as [Hlo|Hlo].
  - exists minValue. repeat split; lra.
  - destruct (ltb_spec maxValue value) as [Hhi|Hhi].
    + exists maxValue. repeat split; lra.
    + exists value. repeat split; auto.
Qed.

Lemma clamp_cases value minValue maxValue r :
  clamp value minValue maxValue = Normal r ->
  (value < minValue /\ r = minValue) \/
  (maxValue < value /\ r = maxValue) \/
  (minValue <= value /\ value <= maxValue /\ r = value).
Proof.
  unfold clamp, assert, assert_msg. js_unfold.
  destruct (leb minValue maxValue); cbv beta iota delta [negb];
    [|intros H; discriminate H].
  destruct (ltb_spec value minValue) as [Hlo|Hlo].
  - intros [= <-]. left. split; [assumption|reflexivity].
  - destruct (ltb_spec maxValue value) as [Hhi|Hhi]; intros [= <-].
    + right; left. split; [assumption|reflexivity].
    + right; right. repeat split; assumption.
Qed.

Lemma clamp_throws value minValue maxValue :
  maxValue < minValue ->
  clamp value minValue maxValue = Throw (Error "Assertion failed!").
Proof.
  intros Hgt. unfold clamp, assert, assert_msg. js_unfold.
  destruct (leb_spec minValue maxValue) as [Hle|_]; [lra|reflexivity].
Qed.

(** C7.  Clamp contract: when [minValue <= maxValue] the call returns a
    number within [[minValue, maxValue]], and that number is [value] itself
    when [value] is already within the bounds; when [minValue > maxValue]
    the call throws the assertion failure. *)
Theorem clamp_contract (value minValue maxValue : Q) :
  (minValue <= maxValue ->
   exists r, clamp value minValue maxValue = Normal r /\
             minValue <= r /\ r <= maxValue /\
             (minValue <= value -> value <= maxValue -> r = value)) /\
  (maxValue < minValue ->
   clamp value minValue maxValue = Throw (Error "Assertion failed!")).
Proof.
  split; [apply clamp_in_range | apply clamp_throws].
Qed.

Lemma clamp_contract_witness :
  (exists r, clamp 5 0 3 = Normal r /\ 0 <= r /\ r <= 3 /\
             (0 <= 5 -> 5 <= 3 -> r = 5)) /\
  clamp 5 3 0 = Throw (Error "Assertion failed!").
Proof.
  split.
  - apply (proj1 (clamp_contract 5 0 3)). vm_compute. discriminate.
  - apply (proj2 (clamp_contract 5 3 0)). reflexivity.
Defined.

(** ** update *)

(** The whole of [update] once the canvas is bound. *)
Lemma update_bound dt g cv :
  canvas g = Some cv ->
  update dt g =
    if ltb (Canvas.width cv) (Canvas.width (foregroundCanvas g)) then
      let limit := Canvas.width (foregroundCanvas g) - Canvas.width cv in
      if isOneKeyDown [KEY_ARROW_LEFT; KEY_A] g then
        match clamp (imageOffsetX g - panningSpeed * dt / 1000) 0 limit with
        | Normal v => (Normal tt, set_imageOffsetX v g)
        | Throw e => (Throw e, g)
        end
      else if isOneKeyDown [KEY_ARROW_RIGHT; KEY_D] g then
        match clamp (imageOffsetX g + panningSpeed * dt / 1000) 0 limit with
        | Normal v => (Normal tt, set_imageOffsetX v g)
        | Throw e => (Throw e, g)
        end
      else (Normal tt, g)
    else (Throw (Error "Assertion failed!"), g).
Proof.
  intros Hc. unfold update. js_unfold. rewrite Hc.
  unfold assert, assert_msg.
  destruct (ltb _ _); cbv beta iota delta [negb]; [|reflexivity].
  destruct (isOneKeyDown [KEY_ARROW_LEFT; KEY_A] g).
  - destruct (clamp _ _ _); reflexivity.
  - destruct (isOneKeyDown [KEY_ARROW_RIGHT; KEY_D] g); [|reflexivity].
    destruct (clamp _ _ _); reflexivity.
Qed.

(** With no canvas bound, reading [canvas.width] is a [TypeError]. *)
Lemma update_unbound dt g :
  canvas g = None -> update dt g = (Throw (TypeError "canvas"), g).
Proof.
  intros Hc. unfold update. js_unfold. rewrite Hc. reflexivity.
Qed.

(** One panning step: the clamped target is stored in [imageOffsetX]. *)
Lemma update_pans dt g cv target :
  canvas g = Some cv ->
  Canvas.width cv < Canvas.width (foregroundCanvas g) ->
  (isOneKeyDown [KEY_ARROW_LEFT; KEY_A] g = true /\
   target = imageOffsetX g - panningSpeed * dt / 1000) \/
  (isOneKeyDown [KEY_ARROW_LEFT; KEY_A] g = false /\
   isOneKeyDown [KEY_ARROW_RIGHT; KEY_D] g = true /\
   target = imageOffsetX g + panningSpeed * dt / 1000) ->
  exists v,
    clamp target 0 (Canvas.width (foregroundCanvas g) - Canvas.width cv) = Normal v /\
    update dt g = (Normal tt, set_imageOffsetX v g) /\
    0 <= v /\ v <= Canvas.width (foregroundCanvas g) - Canvas.width cv.
Proof.
  intros Hc Hw Hkeys. rewrite (update_bound dt g cv Hc).
  destruct (ltb_spec (Canvas.width cv) (Canvas.width (foregroundCanvas g)))
    as [_|Hge]; [|lra].
  cbv zeta.
  destruct (clamp_in_range target 0
              (Canvas.width (foregroundCanvas g) - Canvas.width cv))
    as (v & Hv & Hlo & Hhi & _); [lra|].
  exists v. split; [exact Hv|]. split; [|split; assumption].
  destruct Hkeys as [[Hl Ht]|(Hl & Hr & Ht)]; subst target.
  - rewrite Hl, Hv. reflexivity.
  - rewrite Hl, Hr, Hv. reflexivity.
Qed.

(** A frame with no direction key held, canvas bound and narrower than the
    image: nothing at all changes. *)
Lemma update_idle dt g cv :
  canvas g = Some cv ->
  Canvas.width cv < Canvas.width (foregroundCanvas g) ->
  isOneKeyDown [KEY_ARROW_LEFT; KEY_A] g = false ->
  isOneKeyDown [KEY_ARROW_RIGHT; KEY_D] g = false ->
  update dt g = (Normal tt, g).
Proof.
  intros Hc Hw Hl Hr. rewrite (update_bound dt g cv Hc), Hl, Hr.
  destruct (ltb_spec (Canvas.width cv) (Canvas.width (foregroundCanvas g)))
    as [_|Hge]; [reflexivity|lra].
Qed.

(** C10.  The pan precondition is asserted on every tick: with the canvas
    bound, [update] throws the assertion failure whenever the canvas is not
    narrower than the scaled foreground, whatever keys are or are not held
    and without touching the globals; when the canvas is narrower, [update]
    returns normally, so the failure is then unreachable. *)
Theorem update_asserts_every_tick (dt : Q) (g : Globals) (cv : Canvas.t) :
  canvas g = Some cv ->
  (Canvas.width (foregroundCanvas g) <= Canvas.width cv ->
   update dt g = (Throw (Error "Assertion failed!"), g)) /\
  (Canvas.width cv < Canvas.width (foregroundCanvas g) ->
   exists g', update dt g = (Normal tt, g')).
Proof.
  intros Hc. rewrite (update_bound dt g cv Hc).
  destruct (ltb_spec (Canvas.width cv) (Canvas.width (foregroundCanvas g)))
    as [Hlt|Hge]; split; intros Hw; try lra; try reflexivity.
  cbv zeta.
  destruct (isOneKeyDown [KEY_ARROW_LEFT; KEY_A] g).
  - destruct (clamp_in_range (imageOffsetX g - panningSpeed * dt / 1000) 0
                (Canvas.width (foregroundCanvas g) - Canvas.width cv))
      as (v & -> & _); [lra|]. eauto.
  - destruct (isOneKeyDown [KEY_ARROW_RIGHT; KEY_D] g); [|eauto].
    destruct (clamp_in_range (imageOffsetX g + panningSpeed * dt / 1000) 0
                (Canvas.width (foregroundCanvas g) - Canvas.width cv))
      as (v & -> & _); [lra|]. eauto.
Qed.

Lemma update_asserts_every_tick_witness :
  update (1000 / 60) Demo.tooWide
    = (Throw (Error "Assertion failed!"), Demo.tooWide) /\
  exists g', update (1000 / 60) Demo.started = (Normal tt, g').
Proof.
  split.
  - refine (proj1 (update_asserts_every_tick _ Demo.tooWide _ eq_refl) _).
    vm_compute. discriminate.
  - refine (proj2 (update_asserts_every_tick _ Demo.started _ eq_refl) _).
    reflexivity.
Defined.

(** Runs of frames in which no direction key is held. *)
Lemma run_idle dts g cv :
  canvas g = Some cv ->
  Canvas.width cv < Canvas.width (foregroundCanvas g) ->
  isOneKeyDown [KEY_ARROW_LEFT; KEY_A] g = false ->
  isOneKeyDown [KEY_ARROW_RIGHT; KEY_D] g = false ->
  run (map Update dts) g = (Normal tt, g).
Proof.
  intros Hc Hw Hl Hr. induction dts as [|dt dts IH]; [reflexivity|].
  cbn [map run dispatch]. js_unfold.
  rewrite (update_idle dt g cv Hc Hw Hl Hr). exact IH.
Qed.

(** C9.  A frame in which none of left-arrow, [A], right-arrow, [D] is held
    leaves the globals, and so [imageOffsetX], exactly as they were, however
    the frame ends; nothing asks the offset to be within the travel limit,
    so an offset that a resize has left out of range stays where it is over
    any number of such frames (which return normally when the canvas is
    bound and narrower than the image), until a frame with a direction key
    held stores a clamped offset. *)
Theorem update_no_key_keeps_offset (dt : Q) (g : Globals) :
  isOneKeyDown [KEY_ARROW_LEFT; KEY_A] g = false ->
  isOneKeyDown [KEY_ARROW_RIGHT; KEY_D] g = false ->
  snd (update dt g) = g /\
  (forall cv, canvas g = Some cv ->
     Canvas.width cv < Canvas.width (foregroundCanvas g) ->
     update dt g = (Normal tt, g) /\
     forall dts, run (map Update dts) g = (Normal tt, g)).
Proof.
  intros Hl Hr. split.
  - destruct (canvas g) as [cv|] eqn:Hc.
    + rewrite (update_bound dt g cv Hc), Hl, Hr.
      destruct (ltb _ _); reflexivity.
    + rewrite (update_unbound dt g Hc). reflexivity.
  - intros cv Hc Hw. split.
    + exact (update_idle dt g cv Hc Hw Hl Hr).
    + intros dts. exact (run_idle dts g cv Hc Hw Hl Hr).
Qed.

Lemma update_no_key_keeps_offset_witness :
  (exists cv, canvas Demo.widened = Some cv /\
     Canvas.width (foregroundCanvas Demo.widened) - Canvas.width cv == 200) /\
  imageOffsetX Demo.widened == 400 /\
  snd (update 1000 Demo.widened) = Demo.widened /\
  run (map Update [1000 / 60; 20; 1000]) Demo.widened = (Normal tt, Demo.widened) /\
  imageOffsetX (snd (run [KeyDown KEY_ARROW_RIGHT; Update 20] Demo.widened)) == 200.
Proof.
  split; [eexists; split; reflexivity|].
  split; [reflexivity|].
  destruct (update_no_key_keeps_offset 1000 Demo.widened eq_refl eq_refl)
    as [Hsame Hrun].
  split; [exact Hsame|].
  split; [|reflexivity].
  refine (proj2 (Hrun _ eq_refl _) _). reflexivity.
Defined.

(** The two key lists of [update], key by key. *)
Lemma pan_left_keys g :
  isOneKeyDown [KEY_ARROW_LEFT; KEY_A] g = isKeyDown 37 g || isKeyDown 65 g.
Proof.
  cbn [isOneKeyDown]. unfold KEY_ARROW_LEFT, KEY_A.
  destruct (isKeyDown 37 g), (isKeyDown 65 g); reflexivity.
Qed.

Lemma pan_right_keys g :
  isOneKeyDown [KEY_ARROW_RIGHT; KEY_D] g = isKeyDown 39 g || isKeyDown 68 g.
Proof.
  cbn [isOneKeyDown]. unfold KEY_ARROW_RIGHT, KEY_D.
  destruct (isKeyDown 39 g), (isKeyDown 68 g); reflexivity.
Qed.

(** C4.  Pan direction priority.  With the canvas bound and narrower than
    the scaled foreground, and [movement = panningSpeed * dt / 1000] where
    [panningSpeed = 800]: if left-arrow (37) or [A] (65) is held, the new
    offset is the clamp of [offset - movement]; otherwise, if right-arrow
    (39) or [D] (68) is held, it is the clamp of [offset + movement]; and
    when keys of both directions are held, the left branch is the one taken,
    so for an elapsed time that is not negative and an offset that is not
    negative the offset does not increase. *)
Theorem pan_direction_priority (dt : Q) (g : Globals) (cv : Canvas.t) :
  canvas g = Some cv ->
  Canvas.width cv < Canvas.width (foregroundCanvas g) ->
  let limit := Canvas.width (foregroundCanvas g) - Canvas.width cv in
  let movement := panningSpeed * dt / 1000 in
  panningSpeed = 800 /\
  (isKeyDown 37 g || isKeyDown 65 g = true ->
   exists v, clamp (imageOffsetX g - movement) 0 limit = Normal v /\
             update dt g = (Normal tt, set_imageOffsetX v g)) /\
  (isKeyDown 37 g || isKeyDown 65 g = false ->
   isKeyDown 39 g || isKeyDown 68 g = true ->
   exists v, clamp (imageOffsetX g + movement) 0 limit = Normal v /\
             update dt g = (Normal tt, set_imageOffsetX v g)) /\
  (isKeyDown 37 g || isKeyDown 65 g = true ->
   isKeyDown 39 g || isKeyDown 68 g = true ->
   0 <= dt -> 0 <= imageOffsetX g ->
   imageOffsetX (snd (update dt g)) <= imageOffsetX g).
Proof.
  intros Hc Hw limit movement.
  rewrite <- pan_left_keys, <- pan_right_keys.
  split; [reflexivity|]. split; [|split].
  - intros Hl.
    destruct (update_pans dt g cv (imageOffsetX g - movement) Hc Hw)
      as (v & Hv & Hu & _); [left; split; [exact Hl|reflexivity]|].
    exists v. split; assumption.
  - intros Hl Hr.
    destruct (update_pans dt g cv (imageOffsetX g + movement) Hc Hw)
      as (v & Hv & Hu & _); [right; repeat split; assumption|].
    exists v. split; assumption.
  - intros Hl _ Hdt Hoff.
    destruct (update_pans dt g cv (imageOffsetX g - movement) Hc Hw)
      as (v & Hv & Hu & Hlo & Hhi); [left; split; [exact Hl|reflexivity]|].
    rewrite Hu. cbn [snd set_imageOffsetX imageOffsetX].
    assert (Hm : 0 <= movement).
    { unfold movement, panningSpeed.
      assert (H : 800 * dt / 1000 == (4 # 5) * dt) by field. lra. }
    destruct (clamp_cases _ _ _ _ Hv) as [[H0 ->]|[[H0 ->]|(H0 & H1 & ->)]]; lra.
Qed.

Lemma pan_direction_priority_witness :
  imageOffsetX
    (snd (update 16 (snd (run [KeyDown 39; Update 100; KeyDown 65] Demo.started))))
  <= imageOffsetX (snd (run [KeyDown 39; Update 100; KeyDown 65] Demo.started)).
Proof.
  refine (proj2 (proj2 (proj2
    (pan_direction_priority 16
       (snd (run [KeyDown 39; Update 100; KeyDown 65] Demo.started)) _
       eq_refl _))) _ _ _ _).
  - reflexivity.
  - reflexivity.
  - reflexivity.
  - vm_compute. discriminate.
  - vm_compute. discriminate.
Defined.

(** ** The pan invariant *)

Section PanBounds.

Variable cv : Canvas.t.
Variable fg : Canvas.t.
Hypothesis narrower : Canvas.width cv < Canvas.width fg.

Lemma update_keeps_panInvariant dt g :
  panInvariant cv fg g ->
  exists g', update dt g = (Normal tt, g') /\ panInvariant cv fg g'.
Proof.
  intros (Hc & Hf & Hlo & Hhi).
  assert (Hw : Canvas.width cv < Canvas.width (foregroundCanvas g))
    by (rewrite Hf; exact narrower).
  destruct (isOneKeyDown [KEY_ARROW_LEFT; KEY_A] g) eqn:Hl;
    [|destruct (isOneKeyDown [KEY_ARROW_RIGHT; KEY_D] g) eqn:Hr].
  - destruct (update_pans dt g cv _ Hc Hw (or_introl (conj Hl eq_refl)))
      as (v & _ & Hu & Hv0 & Hv1).
    exists (set_imageOffsetX v g). split; [exact Hu|].
    rewrite Hf in Hv1. repeat split; assumption.
  - destruct (update_pans dt g cv _ Hc Hw
                (or_intror (conj Hl (conj Hr eq_refl))))
      as (v & _ & Hu & Hv0 & Hv1).
    exists (set_imageOffsetX v g). split; [exact Hu|].
    rewrite Hf in Hv1. repeat split; assumption.
  - exists g. split; [exact (update_idle dt g cv Hc Hw Hl Hr)|].
    repeat split; assumption.
Qed.

Lemma dispatch_keeps_panInvariant i g :
  panInvariant cv fg g ->
  exists g', dispatch i g = (Normal tt, g') /\ panInvariant cv fg g'.
Proof.
  intros Hinv. destruct i as [k|k|cx cy|dt]; cbn [dispatch].
  - eexists. split; [reflexivity|]. exact Hinv.
  - eexists. split; [reflexivity|]. exact Hinv.
  - destruct Hinv as (Hc & Hrest).
    unfold onmousemove. js_unfold. rewrite Hc.
    eexists. split; [reflexivity|]. split; [exact Hc|exact Hrest].
  - apply update_keeps_panInvariant, Hinv.
Qed.

Lemma run_keeps_panInvariant inputs g :
  panInvariant cv fg g ->
  exists g', run inputs g = (Normal tt, g') /\ panInvariant cv fg g'.
Proof.
  revert g. induction inputs as [|i rest IH]; intros g Hinv.
  - exists g. split; [reflexivity|exact Hinv].
  - destruct (dispatch_keeps_panInvariant i g Hinv) as (g1 & Hd & Hinv1).
    destruct (IH g1 Hinv1) as (g2 & Hr & Hinv2).
    exists g2. split; [|exact Hinv2].
    cbn [run]. js_unfold. rewrite Hd. exact Hr.
Qed.

End PanBounds.

(** C1.  Pan bounds invariant: with the canvas bound and narrower than the
    scaled foreground, and the offset within [[0, travelLimit]] where
    [travelLimit = scaledForegroundWidth - canvasWidth], every sequence of
    key presses, key releases, mouse moves and updates with any elapsed
    times runs to its end without an exception and leaves the offset within
    [[0, travelLimit]], the two widths being what they were. *)
Theorem pan_bounds (inputs : list Input) (g : Globals) (cv : Canvas.t) :
  canvas g = Some cv ->
  Canvas.width cv < Canvas.width (foregroundCanvas g) ->
  0 <= imageOffsetX g ->
  imageOffsetX g <= Canvas.width (foregroundCanvas g) - Canvas.width cv ->
  exists g',
    run inputs g = (Normal tt, g') /\
    canvas g' = Some cv /\ foregroundCanvas g' = foregroundCanvas g /\
    0 <= imageOffsetX g' /\
    imageOffsetX g' <= Canvas.width (foregroundCanvas g) - Canvas.width cv.
Proof.
  intros Hc Hw Hlo Hhi.
  apply (run_keeps_panInvariant cv (foregroundCanvas g) Hw inputs g).
  repeat split; assumption.
Qed.

Lemma pan_bounds_witness :
  exists g',
    run [KeyDown 39; Update 1000; KeyUp 39; Update 20; KeyDown 65; Update (-5)]
        Demo.started = (Normal tt, g') /\
    canvas g' = canvas Demo.started /\
    foregroundCanvas g' = foregroundCanvas Demo.started /\
    0 <= imageOffsetX g' /\ imageOffsetX g' <= 1200 - 800.
Proof.
  refine (pan_bounds _ Demo.started _ eq_refl _ _ _).
  - reflexivity.
  - vm_compute. discriminate.
  - vm_compute. discriminate.
Defined.

(** The scenario of the viewer at 800 by 600 over a 3000 by 1500 panorama:
    the scale is 0.4, the scaled foreground 1200 wide, and a second of the
    right arrow, worth 800 pixels, stops at the travel limit of 400. *)
Example right_arrow_for_a_second :
  imageScale Demo.started == 0.4 /\
  Canvas.width (foregroundCanvas Demo.started) == 1200 /\
  imageOffsetX
    (snd (run [KeyDown KEY_ARROW_RIGHT; Update 1000] Demo.started)) == 400.
Proof. repeat split; reflexivity. Qed.

(** ** The frame driver *)

(** [animate] while the loop is active: the timestamp is stored, [step]
    runs with the effective elapsed time, the next frame is requested. *)
Lemma animate_active currentTime g :
  animating g = true ->
  animate currentTime g =
    (_ ← step (effectiveDt currentTime (previousTime g));
     id ← requestAnimationFrame;
     modify (set_animationRequestID (Some id)))
      (set_previousTime currentTime g).
Proof.
  intros Ha. unfold animate. js_unfold. rewrite Ha. reflexivity.
Qed.

(** [animate] while the loop is not active returns at once. *)
Lemma animate_idle currentTime g :
  animating g = false -> animate currentTime g = (Normal tt, g).
Proof.
  intros Ha. unfold animate. js_unfold. rewrite Ha. reflexivity.
Qed.

(** C2.  Effective-dt floor: in an active tick, the elapsed time handed to
    [step], and so to [update] for the movement, is
    [max(currentTime - previousTime, 1000/60)]: a smaller difference is
    raised to [1000/60], a difference of [1000/60] or more is passed on as
    it is, however large.  [1000/60] is what the specification writes as
    16.667: for every difference below 16.667 the effective elapsed time is
    within [1/3000] of 16.667. *)
Theorem effective_dt_floor (currentTime : Q) (g : Globals) :
  animating g = true ->
  let raw := currentTime - previousTime g in
  let dt := effectiveDt currentTime (previousTime g) in
  animate currentTime g =
    (_ ← step dt;
     id ← requestAnimationFrame;
     modify (set_animationRequestID (Some id)))
      (set_previousTime currentTime g) /\
  dt = Math_max raw (1000 / 60) /\
  (raw < 1000 / 60 -> dt = 1000 / 60) /\
  (1000 / 60 <= raw -> dt = raw) /\
  (raw < 16.667 -> Qabs (dt - 16.667) <= 1 # 3000).
Proof.
  intros Ha raw dt. split; [exact (animate_active currentTime g Ha)|].
  split; [reflexivity|].
  assert (Hfloor : 1000 / 60 == 50 # 3) by reflexivity.
  unfold dt, effectiveDt. fold raw.
  destruct (Math_max_spec raw (1000 / 60)) as [[Hlt ->]|[Hge ->]].
  - split; [reflexivity|]. split; [intros; lra|].
    intros _. apply Qabs_Qle_condition. split; lra.
  - split; [intros; lra|]. split; [reflexivity|].
    intros Hlt. apply Qabs_Qle_condition. split; lra.
Qed.

Lemma effective_dt_floor_witness :
  effectiveDt 5 (previousTime Demo.started) = 1000 / 60 /\
  Qabs (effectiveDt 5 (previousTime Demo.started) - 16.667) <= 1 # 3000.
Proof.
  destruct (effective_dt_floor 5 Demo.started eq_refl)
    as (_ & _ & Hsmall & _ & Hnear).
  split.
  - apply Hsmall. reflexivity.
  - apply Hnear. reflexivity.
Defined.

(** ** render *)

(** [render] when the viewer is not ready returns at once. *)
Lemma render_not_ready dt g :
  ready g = false -> render dt g = (Normal tt, g).
Proof.
  intros Hr. unfold render. js_unfold. rewrite Hr. reflexivity.
Qed.

(** [render] when the viewer is ready and the canvas is bound: five
    operations on the context of the canvas, nothing else. *)
Lemma render_ready dt g cv :
  ready g = true ->
  canvas g = Some cv ->
  let m := mouse g in
  let offset := imageOffsetX g in
  let borderWidth := Canvas.width (borderCanvas g) in
  let borderHeight := Canvas.height (borderCanvas g) in
  let backgroundWidth := borderWidth * 0.937 in
  let backgroundHeight := borderHeight * 0.937 in
  render dt g =
    (Normal tt,
     set_canvas (Some (fold_left (fun c op => Canvas.record op c)
       [SetFillStyle "#000";
        FillRect 0 0 (Canvas.width cv) (Canvas.height cv);
        DrawImage3 (OfCanvas RefForegroundCanvas) (- offset) 0;
        DrawImage9 (OfCanvas RefBackgroundCanvas)
          (Point.x m + offset - backgroundWidth / 2)
          (Point.y m - backgroundHeight / 2)
          backgroundWidth backgroundHeight
          (Point.x m - backgroundWidth / 2)
          (Point.y m - backgroundHeight / 2)
          backgroundWidth backgroundHeight;
        DrawImage3 (OfCanvas RefBorderCanvas)
          (Point.x m - borderWidth / 2) (Point.y m - borderHeight / 2)]
       cv)) g).
Proof.
  intros Hr Hc. destruct g. cbn [ready canvas] in Hr, Hc. subst. reflexivity.
Qed.

(** C5.  Lens sampling geometry: the fourth thing [render] asks of the
    context is to draw from the scaled background a source rectangle whose
    centre is [(mouse.x + imageOffsetX, mouse.y)] and whose size is 0.937
    times the width and the height of the scaled border, into a destination
    rectangle of the same size whose centre is [(mouse.x, mouse.y)]. *)
Theorem lens_sampling_geometry (dt : Q) (g : Globals) (cv : Canvas.t) :
  ready g = true ->
  canvas g = Some cv ->
  exists fill rect foreground border sx sy sWidth sHeight dx dy dWidth dHeight cv',
    render dt g = (Normal tt, set_canvas (Some cv') g) /\
    Canvas.drawn cv' =
      Canvas.drawn cv ++
      [fill; rect; foreground;
       DrawImage9 (OfCanvas RefBackgroundCanvas)
         sx sy sWidth sHeight dx dy dWidth dHeight;
       border] /\
    sWidth == 0.937 * Canvas.width (borderCanvas g) /\
    sHeight == 0.937 * Canvas.height (borderCanvas g) /\
    centre sx sWidth == Point.x (mouse g) + imageOffsetX g /\
    centre sy sHeight == Point.y (mouse g) /\
    dWidth = sWidth /\ dHeight = sHeight /\
    centre dx dWidth == Point.x (mouse g) /\
    centre dy dHeight == Point.y (mouse g).
Proof.
  intros Hr Hc. do 13 eexists.
  split; [exact (render_ready dt g cv Hr Hc)|].
  split.
  { cbn [fold_left Canvas.record Canvas.drawn]. rewrite <- !app_assoc.
    reflexivity. }
  unfold centre. repeat split; try reflexivity; field.
Qed.

Lemma lens_sampling_geometry_witness :
  exists fill rect foreground border sx sy sWidth sHeight dx dy dWidth dHeight cv cv',
    canvas Demo.lens = Some cv /\
    render 16 Demo.lens = (Normal tt, set_canvas (Some cv') Demo.lens) /\
    Canvas.drawn cv' =
      Canvas.drawn cv ++
      [fill; rect; foreground;
       DrawImage9 (OfCanvas RefBackgroundCanvas)
         sx sy sWidth sHeight dx dy dWidth dHeight;
       border] /\
    centre sx sWidth == 150 /\ centre sy sHeight == 100 /\
    sWidth == 187.4 /\ sHeight == 140.55 /\
    centre dx dWidth == 100 /\ centre dy dHeight == 100 /\
    dWidth == 187.4 /\ dHeight == 140.55.
Proof.
  destruct (lens_sampling_geometry 16 Demo.lens _ eq_refl eq_refl)
    as (fill & rect & fgOp & border & sx & sy & sW & sH & dx & dy & dW & dH & cv'
        & Hrender & Hdrawn & HsW & HsH & Hsx & Hsy & HdW & HdH & Hdx & Hdy).
  exists fill, rect, fgOp, border, sx, sy, sW, sH, dx, dy, dW, dH.
  eexists. exists cv'.
  split; [reflexivity|]. split; [exact Hrender|]. split; [exact Hdrawn|].
  rewrite Hsx, Hsy, Hdx, Hdy. subst dW dH. rewrite HsW, HsH.
  repeat split; reflexivity.
Defined.

(** ** Scaling *)

Module RoundFacts.

Lemma Math_round_comp x y : x == y -> Math_round x = Math_round y.
Proof.
  intros H. unfold Math_round. apply Qfloor_comp. rewrite H. reflexivity.
Qed.

End RoundFacts.

Import RoundFacts.

(** [resizeCanvas] on a ready viewer with the canvas bound and the three
    images loaded. *)
Lemma resizeCanvas_ready g el fi bi di :
  ready g = true ->
  canvas g = Some el ->
  foregroundImage g = Some fi ->
  backgroundImage g = Some bi ->
  borderImage g = Some di ->
  exists g' cv',
    resizeCanvas g = (Normal tt, g') /\
    canvas g' = Some cv' /\
    Canvas.width cv' = Rect.width (Canvas.rect el) /\
    Canvas.height cv' = Rect.height (Canvas.rect el) /\
    imageScale g' = Canvas.height cv' / Image.height fi /\
    Canvas.width (backgroundCanvas g')
      = inject_Z (Math_round (imageScale g' * Image.width bi)) /\
    Canvas.height (backgroundCanvas g')
      = inject_Z (Math_round (imageScale g' * Image.height bi)) /\
    Canvas.width (foregroundCanvas g')
      = inject_Z (Math_round (imageScale g' * Image.width fi)) /\
    Canvas.height (foregroundCanvas g')
      = inject_Z (Math_round (imageScale g' * Image.height fi)) /\
    Canvas.width (borderCanvas g')
      = inject_Z (Math_round (imageScale g' * 1.8 * Image.width di)) /\
    Canvas.height (borderCanvas g')
      = inject_Z (Math_round (imageScale g' * 1.8 * Image.height di)).
Proof.
  intros Hr Hc Hf Hb Hd. destruct g.
  cbn [ready canvas foregroundImage backgroundImage borderImage] in *. subst.
  destruct backgroundCanvas0 as [? ? ? [[|? ?]|] ?];
    destruct foregroundCanvas0 as [? ? ? [[|? ?]|] ?];
    destruct borderCanvas0 as [? ? ? [[|? ?]|] ?];
    (eexists; eexists; split;
     [lazy -[Qmult Qdiv Math_round inject_Z]; reflexivity|];
     repeat split; reflexivity).
Qed.

(** C6.  Scaling postconditions: on a ready viewer with the canvas bound
    and the three images loaded, [resizeCanvas] returns normally; afterwards
    [imageScale] is the canvas height divided by the height of the
    foreground image, every dimension of a scaled canvas is
    [round(scale * sourceDimension)], with [scale = imageScale] for the
    background and the foreground and [scale = 1.8 * imageScale] for the
    border; and when the foreground image has a height that is not zero, the
    scaled foreground is as high as the canvas up to rounding: its height is
    the rounded canvas height, at most a half away from the canvas height,
    and equal to it when the canvas height is an integer. *)
Theorem scaling_postconditions (g : Globals) (el : Canvas.t) (fi bi di : Image.t) :
  ready g = true ->
  canvas g = Some el ->
  foregroundImage g = Some fi ->
  backgroundImage g = Some bi ->
  borderImage g = Some di ->
  exists g' cv',
    resizeCanvas g = (Normal tt, g') /\
    canvas g' = Some cv' /\
    imageScale g' = Canvas.height cv' / Image.height fi /\
    Canvas.width (backgroundCanvas g')
      = inject_Z (Math_round (imageScale g' * Image.width bi)) /\
    Canvas.height (backgroundCanvas g')
      = inject_Z (Math_round (imageScale g' * Image.height bi)) /\
    Canvas.width (foregroundCanvas g')
      = inject_Z (Math_round (imageScale g' * Image.width fi)) /\
    Canvas.height (foregroundCanvas g')
      = inject_Z (Math_round (imageScale g' * Image.height fi)) /\
    Canvas.width (borderCanvas g')
      = inject_Z (Math_round (1.8 * imageScale g' * Image.width di)) /\
    Canvas.height (borderCanvas g')
      = inject_Z (Math_round (1.8 * imageScale g' * Image.height di)) /\
    (~ Image.height fi == 0 ->
     Canvas.height (foregroundCanvas g')
       = inject_Z (Math_round (Canvas.height cv')) /\
     Qabs (Canvas.height (foregroundCanvas g') - Canvas.height cv') <= 1 # 2 /\
     forall z : Z, Canvas.height cv' == inject_Z z ->
       Canvas.height (foregroundCanvas g') == Canvas.height cv').
Proof.
  intros Hr Hc Hf Hb Hd.
  destruct (resizeCanvas_ready g el fi bi di Hr Hc Hf Hb Hd)
    as (g' & cv' & Hrun & Hc' & _ & _ & Hs & Hbw & Hbh & Hfw & Hfh & Hdw & Hdh).
  exists g', cv'. repeat (split; [assumption|]).
  split; [|split].
  - rewrite Hdw. f_equal. apply Math_round_comp. ring.
  - rewrite Hdh. f_equal. apply Math_round_comp. ring.
  - intros Hnz.
    assert (Hh : Canvas.height (foregroundCanvas g')
                 = inject_Z (Math_round (Canvas.height cv'))).
    { rewrite Hfh, Hs. f_equal. apply Math_round_comp. field. exact Hnz. }
    split; [exact Hh|]. rewrite Hh. split.
    + destruct (Math_round_near (Canvas.height cv')) as [Hlo Hhi].
      apply Qabs_Qle_condition. split; lra.
    + intros z Hz. rewrite (Math_round_comp _ _ Hz), Math_round_int.
      symmetry. exact Hz.
Qed.

Lemma scaling_postconditions_witness :
  exists g' cv',
    resizeCanvas Demo.started = (Normal tt, g') /\
    canvas g' = Some cv' /\
    Canvas.height cv' == 600 /\
    imageScale g' == 0.4 /\
    Canvas.width (foregroundCanvas g') == 1200 /\
    Canvas.height (foregroundCanvas g') = inject_Z (Math_round (Canvas.height cv')) /\
    Canvas.height (foregroundCanvas g') == Canvas.height cv' /\
    Canvas.width (borderCanvas g') = inject_Z (Math_round (1.8 * imageScale g' * 400)) /\
    Canvas.width (borderCanvas g') == 288.
Proof.
  destruct (scaling_postconditions Demo.started _ _ _ _
              eq_refl eq_refl eq_refl eq_refl eq_refl)
    as (g' & cv' & Hrun & Hc & Hs & _ & _ & Hfw & _ & Hdw & _ & Hround).
  assert (Hg : g' = snd (resizeCanvas Demo.started)) by (rewrite Hrun; reflexivity).
  assert (Hcv : Some cv' = canvas (snd (resizeCanvas Demo.started)))
    by (rewrite <- Hg, Hc; reflexivity).
  vm_compute in Hcv. injection Hcv as Hcv.
  destruct Hround as (Hh & _ & Hint).
  { vm_compute. discriminate. }
  exists g', cv'.
  split; [exact Hrun|]. split; [exact Hc|].
  split; [rewrite Hcv; reflexivity|].
  split; [rewrite Hs, Hcv; reflexivity|].
  split; [rewrite Hfw, Hs, Hcv; reflexivity|].
  split; [exact Hh|].
  split; [apply (Hint 600%Z); rewrite Hcv; reflexivity|].
  split; [exact Hdw|].
  rewrite Hdw, Hs, Hcv. reflexivity.
Defined.

(** ** Starting and stopping *)

Lemma startAnimation_active g :
  animating g = true -> startAnimation g = (Normal tt, g).
Proof.
  intros Ha. unfold startAnimation. js_unfold. rewrite Ha. reflexivity.
Qed.

Lemma startAnimation_idle g :
  animating g = false ->
  startAnimation g = animate 0 (set_previousTime 0 (set_animating true g)).
Proof.
  intros Ha. unfold startAnimation. js_unfold. rewrite Ha. reflexivity.
Qed.

Lemma set_animating_same g : set_animating (animating g) g = g.
Proof. destruct g; reflexivity. Qed.

Lemma set_frameRequests_same g : set_frameRequests (frameRequests g) g = g.
Proof. destruct g; reflexivity. Qed.

Lemma filter_absent (id : nat) (l : list nat) :
  ~ In id l -> List.filter (fun i => negb (Nat.eqb i id)) l = l.
Proof.
  induction l as [|a l IH]; intros Hnot; [reflexivity|].
  cbn [List.filter]. destruct (Nat.eqb_spec a id) as [->|Hne]; cbn [negb].
  - exfalso. apply Hnot. left. reflexivity.
  - f_equal. apply IH. intros Hin. apply Hnot. right. exact Hin.
Qed.

Lemma filter_twice (id : nat) (l : list nat) :
  List.filter (fun i => negb (Nat.eqb i id))
    (List.filter (fun i => negb (Nat.eqb i id)) l)
  = List.filter (fun i => negb (Nat.eqb i id)) l.
Proof.
  apply filter_absent. intros Hin. apply filter_In in Hin.
  destruct Hin as [_ Hneq]. rewrite Nat.eqb_refl in Hneq. discriminate.
Qed.

(** What [stopAnimation] leaves: the flag is false and the stored handle is
    no longer scheduled. *)
Lemma stopAnimation_result g :
  stopAnimation g =
    (Normal tt,
     match animationRequestID g with
     | Some id =>
         set_frameRequests
           (List.filter (fun i => negb (Nat.eqb i id)) (frameRequests g))
           (set_animating false g)
     | None => set_animating false g
     end).
Proof.
  unfold stopAnimation, cancelAnimationFrame. js_unfold.
  cbn [animationRequestID set_animating frameRequests].
  destruct (animationRequestID g); reflexivity.
Qed.

(** ** What the frame driver owns

    Nothing but [startAnimation], [stopAnimation] and [animate] touches the
    flag [animating], the stored handle or the registry of scheduled
    frames. *)

Create HintDb frame.

Lemma keepsDriver_ret {A} (a : A) : keepsDriver (mret a).
Proof. intros g. reflexivity. Qed.

Lemma keepsDriver_bind {A B} (m : JS A) (k : A -> JS B) :
  keepsDriver m -> (forall a, keepsDriver (k a)) -> keepsDriver (m ≫= k).
Proof.
  intros Hm Hk g. specialize (Hm g). js_unfold.
  destruct (m g) as [[a|e] g1]; cbn [snd] in *.
  - rewrite Hk. exact Hm.
  - exact Hm.
Qed.

Lemma keepsDriver_gets {A} (f : Globals -> A) : keepsDriver (gets f).
Proof. intros g. reflexivity. Qed.

Lemma keepsDriver_lift {A} (c : completion A) : keepsDriver (lift c).
Proof. intros g. reflexivity. Qed.

Lemma keepsDriver_throw {A} (e : exn) : keepsDriver (@throw A e).
Proof. intros g. reflexivity. Qed.

Lemma keepsDriver_modify (f : Globals -> Globals) :
  (forall g, driverFields (f g) = driverFields g) -> keepsDriver (modify f).
Proof. intros Hf g. apply Hf. Qed.

Lemma keepsDriver_defined {A} name (v : option A) : keepsDriver (defined name v).
Proof. destruct v; intros g; reflexivity. Qed.

#[local] Hint Resolve keepsDriver_ret keepsDriver_gets keepsDriver_lift
  keepsDriver_throw keepsDriver_defined : frame.

Ltac frame_step :=
  first
    [ apply keepsDriver_bind; [|intros ?]
    | apply keepsDriver_modify; intros []; reflexivity
    | solve [auto with frame]
    | match goal with
      | |- keepsDriver (if ?b then _ else _) => destruct b
      | |- keepsDriver (match ?x with _ => _ end) => destruct x
      | |- keepsDriver (let _ := _ in _) => cbv zeta
      end ].

Ltac frame := repeat frame_step.

Lemma keepsDriver_getImage r : keepsDriver (getImage r).
Proof. unfold getImage. frame. Qed.

Lemma keepsDriver_getCanvas r : keepsDriver (getCanvas r).
Proof. unfold getCanvas. frame. Qed.

Lemma keepsDriver_putCanvas r c : keepsDriver (putCanvas r c).
Proof. unfold putCanvas. frame. Qed.

#[local] Hint Resolve keepsDriver_getImage keepsDriver_getCanvas keepsDriver_putCanvas : frame.

Lemma keepsDriver_onCanvas r f : keepsDriver (onCanvas r f).
Proof. unfold onCanvas. frame. Qed.

#[local] Hint Resolve keepsDriver_onCanvas : frame.

Lemma keepsDriver_widthOf d : keepsDriver (widthOf d).
Proof. unfold widthOf. frame. Qed.

Lemma keepsDriver_heightOf d : keepsDriver (heightOf d).
Proof. unfold heightOf. frame. Qed.

Lemma keepsDriver_ctx r op : keepsDriver (ctx r op).
Proof. unfold ctx. frame. Qed.

#[local] Hint Resolve keepsDriver_widthOf keepsDriver_heightOf keepsDriver_ctx : frame.

Lemma keepsDriver_resizeImage s t scale : keepsDriver (resizeImage s t scale).
Proof. unfold resizeImage. frame. Qed.

#[local] Hint Resolve keepsDriver_resizeImage : frame.

Lemma keepsDriver_resizeImages : keepsDriver resizeImages.
Proof. unfold resizeImages. frame. Qed.

#[local] Hint Resolve keepsDriver_resizeImages : frame.

Lemma keepsDriver_resizeCanvas : keepsDriver resizeCanvas.
Proof. unfold resizeCanvas. frame. Qed.

#[local] Hint Resolve keepsDriver_resizeCanvas : frame.

Lemma keepsDriver_onresize w h : keepsDriver (onresize w h).
Proof.
  unfold onresize. apply keepsDriver_bind; [|intros ?; auto with frame].
  apply keepsDriver_modify. intros g. destruct g as [[c|]]; reflexivity.
Qed.

Lemma keepsDriver_update dt : keepsDriver (update dt).
Proof. unfold update. frame. Qed.

Lemma keepsDriver_render dt : keepsDriver (render dt).
Proof. unfold render. frame. Qed.

#[local] Hint Resolve keepsDriver_update keepsDriver_render keepsDriver_onresize : frame.

Lemma keepsDriver_step dt : keepsDriver (step dt).
Proof. unfold step. frame. Qed.

Lemma keepsDriver_dispatch i : keepsDriver (dispatch i).
Proof.
  destruct i; cbn [dispatch]; unfold onkeydown, onkeyup, onmousemove; frame.
Qed.

#[local] Hint Resolve keepsDriver_step keepsDriver_dispatch : frame.

Lemma registryInvariant_fields g g' :
  driverFields g' = driverFields g -> registryInvariant g -> registryInvariant g'.
Proof.
  unfold driverFields, registryInvariant. intros [= Ha Hid Hf Hn].
  rewrite Ha, Hid, Hf. exact (fun H => H).
Qed.

Lemma animate_registry currentTime g :
  frameRequests g = [] -> registryInvariant (snd (animate currentTime g)).
Proof.
  intros Hf. destruct (animating g) eqn:Ha.
  - rewrite (animate_active currentTime g Ha). js_unfold.
    pose proof (keepsDriver_step (effectiveDt currentTime (previousTime g))
                  (set_previousTime currentTime g)) as Hs.
    destruct (step _ _) as [[[]|e] g1]; cbn [snd] in Hs;
      unfold driverFields in Hs; cbn [set_previousTime animating
        animationRequestID frameRequests nextRequestID] in Hs;
      injection Hs as Ha1 Hid1 Hf1 Hn1.
    + right. unfold requestAnimationFrame. js_unfold. cbn.
      rewrite Ha1, Hf1, Hf. split; [exact Ha|]. eexists. split; reflexivity.
    + left. cbn [snd]. rewrite Hf1. exact Hf.
  - rewrite (animate_idle currentTime g Ha). left. exact Hf.
Qed.

Lemma startAnimation_registry g :
  registryInvariant g -> registryInvariant (snd (startAnimation g)).
Proof.
  intros Hinv. destruct (animating g) eqn:Ha.
  - rewrite (startAnimation_active g Ha). exact Hinv.
  - rewrite (startAnimation_idle g Ha). apply animate_registry.
    destruct Hinv as [Hf|(Ht & _)]; [exact Hf|congruence].
Qed.

Lemma stopAnimation_registry g :
  registryInvariant g ->
  frameRequests (snd (stopAnimation g)) = [] /\
  animating (snd (stopAnimation g)) = false.
Proof.
  intros Hinv. rewrite stopAnimation_result. cbn [snd].
  destruct Hinv as [Hf|(_ & id & Hf & Hid)].
  - destruct (animationRequestID g);
      cbn [frameRequests animating set_frameRequests set_animating];
      rewrite ?Hf; split; reflexivity.
  - rewrite Hid. cbn [frameRequests animating set_frameRequests set_animating].
    rewrite Hf. cbn [List.filter]. rewrite Nat.eqb_refl. split; reflexivity.
Qed.

Lemma runFrame_registry id currentTime g :
  registryInvariant g -> registryInvariant (snd (runFrame id currentTime g)).
Proof.
  intros Hinv. unfold runFrame. js_unfold.
  destruct (existsb (Nat.eqb id) (frameRequests g)) eqn:Hex; [|exact Hinv].
  cbn [cancelAnimationFrame]. js_unfold.
  apply animate_registry. cbn [frameRequests set_frameRequests].
  destruct Hinv as [Hf|(_ & id' & Hf & _)]; rewrite Hf in *.
  - discriminate.
  - cbn [existsb orb] in Hex. rewrite orb_false_r in Hex.
    apply Nat.eqb_eq in Hex. subst id'.
    cbn [List.filter]. rewrite Nat.eqb_refl. reflexivity.
Qed.

Lemma registry_bind {A B : Type} (m : JS A) (k : A -> JS B) :
  keepsDriver m ->
  (forall a g, registryInvariant g -> registryInvariant (snd (k a g))) ->
  forall g, registryInvariant g -> registryInvariant (snd ((m ≫= k) g)).
Proof.
  intros Hm Hk g Hinv. specialize (Hm g). js_unfold.
  destruct (m g) as [[a|e] g1]; cbn [snd] in *.
  - apply Hk. exact (registryInvariant_fields g g1 Hm Hinv).
  - exact (registryInvariant_fields g g1 Hm Hinv).
Qed.

Lemma main_registry fg bg border el g :
  registryInvariant g -> registryInvariant (snd (main fg bg border el g)).
Proof.
  revert g. unfold main.
  do 11 (apply registry_bind; [solve [frame]|intros ?]).
  apply startAnimation_registry.
Qed.

Lemma control_registry c g :
  registryInvariant g -> registryInvariant (snd (control c g)).
Proof.
  intros Hinv. destruct c as [fg bg border el| | |id t|w h|i]; cbn [control].
  - apply main_registry, Hinv.
  - apply startAnimation_registry, Hinv.
  - left. apply stopAnimation_registry, Hinv.
  - apply runFrame_registry, Hinv.
  - exact (registryInvariant_fields _ _ (keepsDriver_onresize w h g) Hinv).
  - exact (registryInvariant_fields _ _ (keepsDriver_dispatch i g) Hinv).
Qed.

(** At most one frame is ever scheduled, and none while the loop is idle. *)
Lemma eventLoop_registry cs g :
  registryInvariant g -> registryInvariant (eventLoop cs g).
Proof.
  revert g. induction cs as [|c rest IH]; intros g Hinv; cbn [eventLoop].
  - exact Hinv.
  - apply IH, control_registry, Hinv.
Qed.

(** C8.  Idempotent start and stop.  [startAnimation] while [animating] is
    true changes nothing at all: no frame is requested, [previousTime] is
    not reset.  [stopAnimation] while [animating] is false leaves it false
    and can change nothing but the registry of scheduled frames, and it
    changes nothing at all in a state that satisfies the registry invariant,
    which every state that the event loop reaches from the initial one
    does; a second [stopAnimation] right after a first changes nothing.
    [startAnimation] while [animating] is false sets the flag, resets
    [previousTime] to 0 and calls [animate(0)], which runs one [step] with
    the floor [1000/60] as elapsed time and requests the next frame. *)
Theorem start_stop_idempotent (g : Globals) :
  (animating g = true -> startAnimation g = (Normal tt, g)) /\
  (animating g = false ->
   exists g',
     stopAnimation g = (Normal tt, g') /\
     animating g' = false /\
     g' = set_frameRequests (frameRequests g') g /\
     (registryInvariant g -> g' = g)) /\
  stopAnimation (snd (stopAnimation g)) = (Normal tt, snd (stopAnimation g)) /\
  (forall cs, registryInvariant (eventLoop cs initial)) /\
  (animating g = false ->
   let g0 := set_previousTime 0 (set_animating true g) in
   previousTime g0 = 0 /\ animating g0 = true /\
   startAnimation g = animate 0 g0 /\
   animate 0 g0 =
     (_ ← step (1000 / 60);
      id ← requestAnimationFrame;
      modify (set_animationRequestID (Some id))) (set_previousTime 0 g0)).
Proof.
  split; [apply startAnimation_active|]. split; [|split; [|split]].
  - intros Ha. eexists. split; [apply stopAnimation_result|].
    assert (Hg : set_animating false g = g)
      by (rewrite <- Ha; apply set_animating_same).
    rewrite !Hg.
    destruct (animationRequestID g) as [id|] eqn:Hid.
    + split; [exact Ha|]. split; [destruct g; reflexivity|].
      intros [Hf|(Ht & _)]; [|congruence].
      rewrite Hf. cbn [List.filter]. rewrite <- Hf.
      apply set_frameRequests_same.
    + split; [exact Ha|]. split; [symmetry; apply set_frameRequests_same|].
      intros _. reflexivity.
  - rewrite !stopAnimation_result. cbn [snd]. f_equal.
    destruct (animationRequestID g) as [id|] eqn:Hid;
      cbn [animationRequestID set_frameRequests set_animating frameRequests];
      rewrite ?Hid; [|reflexivity].
    rewrite filter_twice. reflexivity.
  - intros cs. apply eventLoop_registry. left. reflexivity.
  - intros Ha g0. split; [reflexivity|]. split; [reflexivity|].
    split; [apply startAnimation_idle, Ha|].
    apply (animate_active 0 g0). reflexivity.
Qed.

Lemma start_stop_idempotent_witness :
  startAnimation Demo.started = (Normal tt, Demo.started) /\
  stopAnimation Demo.stopped = (Normal tt, Demo.stopped) /\
  startAnimation Demo.stopped
    = animate 0 (set_previousTime 0 (set_animating true Demo.stopped)).
Proof.
  destruct (start_stop_idempotent Demo.started) as (Hstart & _).
  destruct (start_stop_idempotent Demo.stopped) as (_ & Hstop & _ & _ & Hidle).
  split; [apply Hstart; reflexivity|]. split.
  - destruct (Hstop eq_refl) as (g' & Hrun & _ & _ & Hsame).
    rewrite Hrun. f_equal. apply Hsame. left. reflexivity.
  - destruct (Hidle eq_refl) as (_ & _ & Hcall & _). exact Hcall.
Defined.

(** * Further properties of the code *)

(** ** The keyboard *)

(** X1.  Key state round trip: a key reads as down right after its
    [keydown] and as up right after its [keyup], also when the release
    follows the press; neither handler changes how any other key reads, and
    each changes nothing but [g_keys]. *)
Theorem key_state_round_trip (k k' : nat) (g : Globals) :
  isKeyDown k (snd (onkeydown k g)) = true /\
  isKeyDown k (snd (onkeyup k g)) = false /\
  isKeyDown k (snd (onkeyup k (snd (onkeydown k g)))) = false /\
  (k <> k' ->
   isKeyDown k' (snd (onkeydown k g)) = isKeyDown k' g /\
   isKeyDown k' (snd (onkeyup k g)) = isKeyDown k' g) /\
  onkeydown k g = (Normal tt, set_g_keys (g_keys (snd (onkeydown k g))) g) /\
  onkeyup k g = (Normal tt, set_g_keys (g_keys (snd (onkeyup k g))) g).
Proof.
  unfold onkeydown, onkeyup, isKeyDown, modify. cbn [snd g_keys set_g_keys].
  rewrite !lookup_insert_eq.
  repeat split; try reflexivity.
  - rewrite lookup_insert_ne by assumption. reflexivity.
  - rewrite lookup_insert_ne by assumption. reflexivity.
Qed.

(** X2.  [isOneKeyDown] answers whether some key of the list is down: it is
    true exactly when the list holds a key code that [isKeyDown] reports as
    down, so it is false for the empty list and does not depend on the order
    of the codes. *)
Theorem isOneKeyDown_exists (keyCodes : list nat) (g : Globals) :
  isOneKeyDown keyCodes g = true <->
  exists keyCode, In keyCode keyCodes /\ isKeyDown keyCode g = true.
Proof.
  induction keyCodes as [|k rest IH]; cbn [isOneKeyDown In].
  - split; [discriminate|]. intros (k & [] & _).
  - destruct (isKeyDown k g) eqn:Hk.
    + split; [|reflexivity]. intros _. exists k. split; [left; reflexivity|exact Hk].
    + rewrite IH. split.
      * intros (k' & Hin & Hd). exists k'. split; [right; exact Hin|exact Hd].
      * intros (k' & [->|Hin] & Hd); [congruence|].
        exists k'. split; assumption.
Qed.

(** ** clamp against its documentation *)

(** X3.  For [minValue <= maxValue], [clamp] returns what its documentation
    says, [max(minValue, min(maxValue, value))]. *)
Theorem clamp_is_max_min (value minValue maxValue : Q) :
  minValue <= maxValue ->
  exists r, clamp value minValue maxValue = Normal r /\
            r == Qmax minValue (Qmin maxValue value).
Proof.
  intros Hle.
  destruct (clamp_in_range value minValue maxValue Hle) as (r & Hr & _).
  exists r. split; [exact Hr|].
  destruct (clamp_cases _ _ _ _ Hr) as [[H ->]|[[H ->]|(Hlo & Hhi & ->)]].
  - rewrite (Q.min_r maxValue value) by lra. rewrite Q.max_l by lra. reflexivity.
  - rewrite (Q.min_l maxValue value) by lra. rewrite Q.max_r by lra. reflexivity.
  - rewrite (Q.min_r maxValue value) by lra. rewrite Q.max_r by lra. reflexivity.
Qed.

Lemma clamp_is_max_min_witness :
  exists r, clamp 7 0 3 = Normal r /\ r == Qmax 0 (Qmin 3 7).
Proof.
  apply (clamp_is_max_min 7 0 3). vm_compute. discriminate.
Defined.

(** X4.  For [minValue <= maxValue], [clamp] is monotone in [value], and
    clamping a clamped value again returns it unchanged. *)
Theorem clamp_monotone_idempotent (value value' minValue maxValue : Q) :
  minValue <= maxValue ->
  value <= value' ->
  exists r r',
    clamp value minValue maxValue = Normal r /\
    clamp value' minValue maxValue = Normal r' /\
    r <= r' /\
    clamp r minValue maxValue = Normal r.
Proof.
  intros Hle Hv.
  destruct (clamp_in_range value minValue maxValue Hle) as (r & Hr & Hlo & Hhi & _).
  destruct (clamp_in_range value' minValue maxValue Hle) as (r' & Hr' & Hlo' & Hhi' & _).
  exists r, r'. split; [exact Hr|]. split; [exact Hr'|]. split.
  - destruct (clamp_cases _ _ _ _ Hr) as [[H ->]|[[H ->]|(H0 & H1 & ->)]];
      destruct (clamp_cases _ _ _ _ Hr') as [[H' ->]|[[H' ->]|(H0' & H1' & ->)]];
      lra.
  - destruct (clamp_in_range r minValue maxValue Hle) as (r2 & Hr2 & _ & _ & Hid).
    rewrite Hr2. f_equal. apply Hid; assumption.
Qed.

Lemma clamp_monotone_idempotent_witness :
  exists r r',
    clamp (-2) 0 3 = Normal r /\ clamp 7 0 3 = Normal r' /\ r <= r' /\
    clamp r 0 3 = Normal r.
Proof.
  apply (clamp_monotone_idempotent (-2) 7 0 3); vm_compute; discriminate.
Defined.

(** ** More on update *)

Lemma update_too_wide dt g cv :
  canvas g = Some cv ->
  Canvas.width (foregroundCanvas g) <= Canvas.width cv ->
  update dt g = (Throw (Error "Assertion failed!"), g).
Proof.
  intros Hc Hw. rewrite (update_bound dt g cv Hc).
  destruct (ltb_spec (Canvas.width cv) (Canvas.width (foregroundCanvas g)))
    as [Hlt|_]; [lra|reflexivity].
Qed.

Lemma set_imageOffsetX_same g : set_imageOffsetX (imageOffsetX g) g = g.
Proof. destruct g; reflexivity. Qed.

(** The three ways [update] can end. *)
Lemma update_outcome dt g :
  (exists e, update dt g = (Throw e, g)) \/
  update dt g = (Normal tt, g) \/
  (exists cv v,
     canvas g = Some cv /\
     Canvas.width cv < Canvas.width (foregroundCanvas g) /\
     update dt g = (Normal tt, set_imageOffsetX v g) /\
     0 <= v /\ v <= Canvas.width (foregroundCanvas g) - Canvas.width cv).
Proof.
  destruct (canvas g) as [cv|] eqn:Hc.
  2:{ left. eexists. exact (update_unbound dt g Hc). }
  destruct (ltb_spec (Canvas.width cv) (Canvas.width (foregroundCanvas g)))
    as [Hw|Hw].
  2:{ left. eexists.
      exact (update_too_wide dt g cv Hc Hw). }
  destruct (isOneKeyDown [KEY_ARROW_LEFT; KEY_A] g) eqn:Hl;
    [|destruct (isOneKeyDown [KEY_ARROW_RIGHT; KEY_D] g) eqn:Hr].
  - destruct (update_pans dt g cv _ Hc Hw (or_introl (conj Hl eq_refl)))
      as (v & _ & Hu & Hv0 & Hv1).
    right; right. exists cv, v. repeat split; assumption.
  - destruct (update_pans dt g cv _ Hc Hw
                (or_intror (conj Hl (conj Hr eq_refl))))
      as (v & _ & Hu & Hv0 & Hv1).
    right; right. exists cv, v. repeat split; assumption.
  - right; left. exact (update_idle dt g cv Hc Hw Hl Hr).
Qed.

(** X5.  [update] writes nothing but [imageOffsetX]: whatever the keys, the
    elapsed time and the way it ends, the globals after it are the globals
    before it with at most a new offset; and when it throws, not even the
    offset has changed. *)
Theorem update_touches_only_offset (dt : Q) (g : Globals) :
  snd (update dt g) = set_imageOffsetX (imageOffsetX (snd (update dt g))) g /\
  (forall e, fst (update dt g) = Throw e -> snd (update dt g) = g).
Proof.
  destruct (update_outcome dt g) as [[e ->]|[->|(cv & v & _ & _ & -> & _)]];
    cbn [fst snd].
  - split; [symmetry; apply set_imageOffsetX_same|reflexivity].
  - split; [symmetry; apply set_imageOffsetX_same|reflexivity].
  - split; [destruct g; reflexivity|]. intros e He. discriminate He.
Qed.

(** X6.  The pan step in closed form.  With the canvas bound and narrower
    than the scaled foreground, an elapsed time that is not negative and an
    offset within the travel limit: a left key gives
    [max(0, offset - movement)], and a right key with no left key gives
    [min(limit, offset + movement)].  So for a positive elapsed time a left
    key strictly decreases an offset above 0, a right key strictly increases
    an offset below the limit, and at 0 and at the limit the offset stays. *)
Theorem pan_step_closed_form (dt : Q) (g : Globals) (cv : Canvas.t) :
  canvas g = Some cv ->
  Canvas.width cv < Canvas.width (foregroundCanvas g) ->
  0 <= dt ->
  0 <= imageOffsetX g ->
  imageOffsetX g <= Canvas.width (foregroundCanvas g) - Canvas.width cv ->
  let limit := Canvas.width (foregroundCanvas g) - Canvas.width cv in
  let movement := panningSpeed * dt / 1000 in
  let new := imageOffsetX (snd (update dt g)) in
  (isOneKeyDown [KEY_ARROW_LEFT; KEY_A] g = true ->
   new == Qmax 0 (imageOffsetX g - movement) /\
   (0 < dt -> 0 < imageOffsetX g -> new < imageOffsetX g)) /\
  (isOneKeyDown [KEY_ARROW_LEFT; KEY_A] g = false ->
   isOneKeyDown [KEY_ARROW_RIGHT; KEY_D] g = true ->
   new == Qmin limit (imageOffsetX g + movement) /\
   (0 < dt -> imageOffsetX g < limit -> imageOffsetX g < new)).
Proof.
  intros Hc Hw Hdt Hlo Hhi limit movement new. subst limit.
  assert (Hm : movement == (4 # 5) * dt)
    by (unfold movement, panningSpeed; field).
  split.
  - intros Hl.
    destruct (update_pans dt g cv (imageOffsetX g - movement) Hc Hw)
      as (v & Hv & Hu & _); [left; split; [exact Hl|reflexivity]|].
    assert (Hnew : new = v) by (unfold new; rewrite Hu; reflexivity).
    rewrite Hnew.
    destruct (clamp_cases _ _ _ _ Hv) as [[H ->]|[[H ->]|(H0 & H1 & ->)]].
    + split; [rewrite Q.max_l by lra; reflexivity|]. intros; lra.
    + lra.
    + split; [rewrite Q.max_r by lra; reflexivity|]. intros; lra.
  - intros Hl Hr.
    destruct (update_pans dt g cv (imageOffsetX g + movement) Hc Hw)
      as (v & Hv & Hu & _); [right; repeat split; assumption|].
    assert (Hnew : new = v) by (unfold new; rewrite Hu; reflexivity).
    rewrite Hnew.
    destruct (clamp_cases _ _ _ _ Hv) as [[H ->]|[[H ->]|(H0 & H1 & ->)]].
    + lra.
    + split; [rewrite Q.min_l by lra; reflexivity|]. intros; lra.
    + split; [rewrite Q.min_r by lra; reflexivity|]. intros; lra.
Qed.

Lemma pan_step_closed_form_witness :
  imageOffsetX (snd (update 100 (snd (onkeydown KEY_D Demo.started))))
    == Qmin (1200 - 800) (0 + 800 * 100 / 1000) /\
  0 < imageOffsetX (snd (update 100 (snd (onkeydown KEY_D Demo.started)))).
Proof.
  destruct (pan_step_closed_form 100 (snd (onkeydown KEY_D Demo.started)) _ eq_refl)
    as [_ Hright].
  - reflexivity.
  - vm_compute. discriminate.
  - vm_compute. discriminate.
  - vm_compute. discriminate.
  - destruct (Hright eq_refl eq_refl) as [Hnew Hmove].
    split; [exact Hnew|]. apply Hmove; reflexivity.
Defined.

(** ** One iteration of the main loop *)

(** X8.  [step] stops at a failed update: when [update] throws, [step]
    throws the same exception, [render] does not run, and the globals, the
    drawing history of the canvas included, are as before the step; when
    [update] returns, [step] is [render] on the globals [update] left. *)
Theorem step_stops_at_failed_update (dt : Q) (g : Globals) :
  (forall e, fst (update dt g) = Throw e -> step dt g = (Throw e, g)) /\
  (fst (update dt g) = Normal tt ->
   step dt g = render dt (snd (update dt g))).
Proof.
  unfold step. js_unfold.
  destruct (update_outcome dt g) as [[e ->]|[->|(cv & v & _ & _ & -> & _)]];
    cbn [fst snd]; split; intros; try discriminate; try reflexivity.
  congruence.
Qed.

(** ** More on the frame driver *)




(** An active tick whose assertion fails: it throws after storing the
    timestamp, and requests no frame. *)
Lemma animate_fails currentTime g cv :
  animating g = true ->
  canvas g = Some cv ->
  Canvas.width (foregroundCanvas g) <= Canvas.width cv ->
  animate currentTime g
    = (Throw (Error "Assertion failed!"), set_previousTime currentTime g).
Proof.
  intros Ha Hc Hw. rewrite (animate_active currentTime g Ha).
  unfold step. js_unfold.
  rewrite (update_too_wide _ (set_previousTime currentTime g) cv Hc Hw).
  reflexivity.
Qed.

(** Running the one scheduled frame empties the registry before [animate]
    is called. *)
Lemma runFrame_scheduled id currentTime g :
  registryInvariant g ->
  In id (frameRequests g) ->
  animating g = true /\
  runFrame id currentTime g = animate currentTime (set_frameRequests [] g).
Proof.
  intros [Hf|(Ha & id' & Hf & Hid)] Hin; rewrite Hf in Hin; [destruct Hin|].
  destruct Hin as [->|[]]. split; [exact Ha|].
  unfold runFrame, cancelAnimationFrame. js_unfold. rewrite Hf.
  cbn [existsb]. rewrite Nat.eqb_refl. cbn [orb]. rewrite Hf.
  cbn [List.filter]. rewrite Nat.eqb_refl. reflexivity.
Qed.

(** X9.  A tick whose assertion fails stalls the loop for good.  When the
    scheduled frame runs on an active viewer whose canvas is not narrower
    than the scaled foreground, [animate] throws the assertion failure
    after the frame has left the registry and before the next one is
    requested.  Afterwards [animating] is still true and no frame is
    scheduled, so [startAnimation] does nothing and no frame handle runs
    anything; a later resize of the window, to whatever size, does not
    change that. *)
Theorem failed_assertion_stalls_loop
    (id : nat) (currentTime : Q) (g : Globals) (cv : Canvas.t) :
  registryInvariant g ->
  In id (frameRequests g) ->
  canvas g = Some cv ->
  Canvas.width (foregroundCanvas g) <= Canvas.width cv ->
  exists g',
    runFrame id currentTime g = (Throw (Error "Assertion failed!"), g') /\
    animating g' = true /\
    frameRequests g' = [] /\
    startAnimation g' = (Normal tt, g') /\
    (forall id' t', runFrame id' t' g' = (Normal tt, g')) /\
    (forall width height,
       animating (snd (onresize width height g')) = true /\
       frameRequests (snd (onresize width height g')) = []).
Proof.
  intros Hinv Hin Hc Hw.
  destruct (runFrame_scheduled id currentTime g Hinv Hin) as [Ha Hrun].
  rewrite Hrun, (animate_fails currentTime (set_frameRequests [] g) cv Ha Hc Hw).
  eexists. split; [reflexivity|]. split; [exact Ha|]. split; [reflexivity|].
  split; [apply startAnimation_active; exact Ha|].
  split; [intros id' t'; reflexivity|].
  intros width height.
  pose proof (keepsDriver_onresize width height
                (set_previousTime currentTime (set_frameRequests [] g))) as Hk.
  unfold driverFields in Hk. injection Hk as Ha' _ Hf' _.
  rewrite Ha', Hf'. split; [exact Ha|reflexivity].
Qed.

Lemma failed_assertion_stalls_loop_witness :
  exists g',
    runFrame 1 33 Demo.tooWide = (Throw (Error "Assertion failed!"), g') /\
    animating g' = true /\
    frameRequests g' = [] /\
    startAnimation g' = (Normal tt, g') /\
    (forall id' t', runFrame id' t' g' = (Normal tt, g')) /\
    (forall width height,
       animating (snd (onresize width height g')) = true /\
       frameRequests (snd (onresize width height g')) = []).
Proof.
  refine (failed_assertion_stalls_loop 1 33 Demo.tooWide _ _ _ eq_refl _).
  - right. split; [reflexivity|]. exists 1%nat. split; reflexivity.
  - left. reflexivity.
  - vm_compute. discriminate.
Defined.



(** X11.  A frame that comes late does nothing after [stopAnimation]: in a
    state that satisfies the registry invariant, once [stopAnimation] has
    run no frame handle runs anything, and [animate] itself, were it called
    all the same, returns at once. *)
Theorem late_frame_after_stop (id : nat) (currentTime : Q) (g : Globals) :
  registryInvariant g ->
  runFrame id currentTime (snd (stopAnimation g))
    = (Normal tt, snd (stopAnimation g)) /\
  animate currentTime (snd (stopAnimation g))
    = (Normal tt, snd (stopAnimation g)).
Proof.
  intros Hinv. destruct (stopAnimation_registry g Hinv) as [Hf Ha]. split.
  - unfold runFrame. js_unfold. rewrite Hf. reflexivity.
  - apply animate_idle, Ha.
Qed.

Lemma late_frame_after_stop_witness :
  runFrame 1 33 (snd (stopAnimation Demo.started))
    = (Normal tt, snd (stopAnimation Demo.started)) /\
  animate 33 (snd (stopAnimation Demo.started))
    = (Normal tt, snd (stopAnimation Demo.started)).
Proof.
  apply (late_frame_after_stop 1 33 Demo.started).
  right. split; [reflexivity|]. exists 1%nat. split; reflexivity.
Defined.



(** ** What every call keeps *)

Lemma keepsPan_ret {A} (a : A) : keepsPan (mret a).
Proof. intros g. reflexivity. Qed.

Lemma keepsPan_bind {A B} (m : JS A) (k : A -> JS B) :
  keepsPan m -> (forall a, keepsPan (k a)) -> keepsPan (m ≫= k).
Proof.
  intros Hm Hk g. specialize (Hm g). js_unfold.
  destruct (m g) as [[a|e] g1]; cbn [snd] in *.
  - rewrite Hk. exact Hm.
  - exact Hm.
Qed.

Lemma keepsPan_gets {A} (f : Globals -> A) : keepsPan (gets f).
Proof. intros g. reflexivity. Qed.

Lemma keepsPan_lift {A} (c : completion A) : keepsPan (lift c).
Proof. intros g. reflexivity. Qed.

Lemma keepsPan_throw {A} (e : exn) : keepsPan (@throw A e).
Proof. intros g. reflexivity. Qed.

Lemma keepsPan_modify (f : Globals -> Globals) :
  (forall g, panView (f g) = panView g) -> keepsPan (modify f).
Proof. intros Hf g. apply Hf. Qed.

Lemma keepsPan_defined {A} name (v : option A) : keepsPan (defined name v).
Proof. destruct v; intros g; reflexivity. Qed.

Create HintDb pan.

#[local] Hint Resolve keepsPan_ret keepsPan_gets keepsPan_lift
  keepsPan_throw keepsPan_defined : pan.

Ltac calm_step :=
  first
    [ apply keepsPan_bind; [|intros ?]
    | apply keepsPan_modify; intros []; reflexivity
    | solve [auto with pan]
    | match goal with
      | |- keepsPan (if ?b then _ else _) => destruct b
      | |- keepsPan (match ?x with _ => _ end) => destruct x
      | |- keepsPan (let _ := _ in _) => cbv zeta
      end ].

Ltac calm := repeat calm_step.

Lemma keepsPan_getImage r : keepsPan (getImage r).
Proof. unfold getImage. calm. Qed.

Lemma keepsPan_getCanvas r : keepsPan (getCanvas r).
Proof. unfold getCanvas. calm. Qed.

Lemma keepsPan_putCanvas r c : keepsPan (putCanvas r c).
Proof. unfold putCanvas. calm. Qed.

#[local] Hint Resolve keepsPan_getImage keepsPan_getCanvas keepsPan_putCanvas : pan.

Lemma keepsPan_onCanvas r f : keepsPan (onCanvas r f).
Proof. unfold onCanvas. calm. Qed.

#[local] Hint Resolve keepsPan_onCanvas : pan.

Lemma keepsPan_widthOf d : keepsPan (widthOf d).
Proof. unfold widthOf. calm. Qed.

Lemma keepsPan_heightOf d : keepsPan (heightOf d).
Proof. unfold heightOf. calm. Qed.

Lemma keepsPan_ctx r op : keepsPan (ctx r op).
Proof. unfold ctx. calm. Qed.

#[local] Hint Resolve keepsPan_widthOf keepsPan_heightOf keepsPan_ctx : pan.

Lemma keepsPan_resizeImage s t scale : keepsPan (resizeImage s t scale).
Proof. unfold resizeImage. calm. Qed.

#[local] Hint Resolve keepsPan_resizeImage : pan.

Lemma keepsPan_resizeImages : keepsPan resizeImages.
Proof. unfold resizeImages. calm. Qed.

#[local] Hint Resolve keepsPan_resizeImages : pan.

Lemma keepsPan_resizeCanvas : keepsPan resizeCanvas.
Proof. unfold resizeCanvas. calm. Qed.

#[local] Hint Resolve keepsPan_resizeCanvas : pan.

Lemma keepsPan_onresize w h : keepsPan (onresize w h).
Proof.
  unfold onresize. apply keepsPan_bind; [|intros ?; auto with pan].
  apply keepsPan_modify. intros g. destruct g as [[c|]]; reflexivity.
Qed.

Lemma keepsPan_render dt : keepsPan (render dt).
Proof. unfold render. calm. Qed.

Lemma keepsPan_requestAnimationFrame : keepsPan requestAnimationFrame.
Proof. unfold requestAnimationFrame. calm. Qed.

Lemma keepsPan_cancelAnimationFrame h : keepsPan (cancelAnimationFrame h).
Proof. unfold cancelAnimationFrame. calm. Qed.

#[local] Hint Resolve keepsPan_onresize keepsPan_render
  keepsPan_requestAnimationFrame keepsPan_cancelAnimationFrame : pan.

Lemma keepsPan_stopAnimation : keepsPan stopAnimation.
Proof. unfold stopAnimation. calm. Qed.

Lemma keepsPan_onkeydown k : keepsPan (onkeydown k).
Proof. unfold onkeydown. calm. Qed.

Lemma keepsPan_onkeyup k : keepsPan (onkeyup k).
Proof. unfold onkeyup. calm. Qed.

Lemma keepsPan_onmousemove cx cy : keepsPan (onmousemove cx cy).
Proof. unfold onmousemove. calm. Qed.

#[local] Hint Resolve keepsPan_stopAnimation keepsPan_onkeydown
  keepsPan_onkeyup keepsPan_onmousemove : pan.

Section Preserved.

(** A property of the offset and the ready flag that [update] keeps and the
    setting of [ready] keeps. *)
Variable P : Globals -> Prop.
Hypothesis P_view : forall g g', panView g' = panView g -> P g -> P g'.
Hypothesis P_update : forall dt g, P g -> P (snd (update dt g)).
Hypothesis P_ready : forall g, P g -> P (set_ready true g).

Lemma preserves_ret {A} (a : A) : preserves P (mret a).
Proof. intros g H. exact H. Qed.

Lemma preserves_bind {A B} (m : JS A) (k : A -> JS B) :
  preserves P m -> (forall a, preserves P (k a)) -> preserves P (m ≫= k).
Proof.
  intros Hm Hk g H. specialize (Hm g H). js_unfold.
  destruct (m g) as [[a|e] g1]; cbn [snd] in *.
  - apply Hk, Hm.
  - exact Hm.
Qed.

Lemma preserves_keepsPan {A} (m : JS A) : keepsPan m -> preserves P m.
Proof. intros Hm g H. exact (P_view g _ (Hm g) H). Qed.

Lemma preserves_step dt : preserves P (step dt).
Proof.
  unfold step. apply preserves_bind; [exact (P_update dt)|intros _].
  apply preserves_keepsPan, keepsPan_render.
Qed.

Lemma preserves_animate currentTime : preserves P (animate currentTime).
Proof.
  unfold animate.
  apply preserves_bind; [apply preserves_keepsPan; calm|intros a].
  destruct (negb a); [apply preserves_ret|].
  apply preserves_bind; [apply preserves_keepsPan; calm|intros previous].
  cbv zeta.
  apply preserves_bind; [apply preserves_keepsPan; calm|intros _].
  apply preserves_bind; [apply preserves_step|intros _].
  apply preserves_keepsPan. calm.
Qed.

Lemma preserves_startAnimation : preserves P startAnimation.
Proof.
  unfold startAnimation.
  apply preserves_bind; [apply preserves_keepsPan; calm|intros a].
  destruct a; [apply preserves_ret|].
  do 3 (apply preserves_bind; [apply preserves_keepsPan; calm|intros ?]).
  apply preserves_animate.
Qed.

Lemma preserves_runFrame id currentTime : preserves P (runFrame id currentTime).
Proof.
  unfold runFrame.
  apply preserves_bind; [apply preserves_keepsPan; calm|intros scheduled].
  destruct (existsb _ _); [|apply preserves_ret].
  apply preserves_bind; [apply preserves_keepsPan; calm|intros _].
  apply preserves_animate.
Qed.

Lemma preserves_main fg bg border el : preserves P (main fg bg border el).
Proof.
  unfold main.
  do 9 (apply preserves_bind; [apply preserves_keepsPan; solve [calm]|intros ?]).
  apply preserves_bind; [intros g H; exact (P_ready g H)|intros _].
  apply preserves_bind; [apply preserves_keepsPan; calm|intros _].
  apply preserves_startAnimation.
Qed.

Lemma preserves_control c : preserves P (control c).
Proof.
  destruct c as [fg bg border el| | |id t|w h|[k|k|cx cy|dt]];
    cbn [control dispatch].
  - apply preserves_main.
  - apply preserves_startAnimation.
  - apply preserves_keepsPan, keepsPan_stopAnimation.
  - apply preserves_runFrame.
  - apply preserves_keepsPan, keepsPan_onresize.
  - apply preserves_keepsPan, keepsPan_onkeydown.
  - apply preserves_keepsPan, keepsPan_onkeyup.
  - apply preserves_keepsPan, keepsPan_onmousemove.
  - exact (P_update dt).
Qed.

Lemma preserves_eventLoop cs g : P g -> P (eventLoop cs g).
Proof.
  revert g. induction cs as [|c rest IH]; intros g H; cbn [eventLoop].
  - exact H.
  - apply IH, preserves_control, H.
Qed.

End Preserved.

(** [update] never stores a negative offset. *)
Lemma update_keeps_nonneg dt g :
  0 <= imageOffsetX g -> 0 <= imageOffsetX (snd (update dt g)).
Proof.
  intros H.
  destruct (update_outcome dt g) as [[e ->]|[->|(cv & v & _ & _ & -> & Hv & _)]];
    cbn [snd set_imageOffsetX imageOffsetX]; assumption.
Qed.

(** [update] does not write [ready]. *)
Lemma update_keeps_ready dt g : ready (snd (update dt g)) = ready g.
Proof.
  destruct (update_outcome dt g) as [[e ->]|[->|(cv & v & _ & _ & -> & _)]];
    reflexivity.
Qed.

(** X13.  The offset is never negative: started at an offset that is not
    negative, as the script does with 0, the event loop can boot, start and
    stop the loop, run frames, resize the window and deliver keys and mouse
    moves in any order and number, with or without exceptions on the way,
    and the offset after it is not negative. *)
Theorem offset_never_negative (cs : list Control) (g : Globals) :
  0 <= imageOffsetX g -> 0 <= imageOffsetX (eventLoop cs g).
Proof.
  apply (preserves_eventLoop (fun g => 0 <= imageOffsetX g)).
  - intros g0 g' [= Ho _] H. rewrite Ho. exact H.
  - intros dt g0. apply update_keeps_nonneg.
  - intros [] H. exact H.
Qed.

Lemma offset_never_negative_witness :
  0 <= imageOffsetX
         (eventLoop [Boot Demo.happy Demo.sad Demo.phone (Some Demo.element);
                     Handle (KeyDown KEY_ARROW_LEFT); Frame 1 40;
                     Resize 2000 600; Frame 2 80; Stop; Start]
            initial).
Proof.
  apply offset_never_negative. vm_compute. discriminate.
Defined.

(** X14.  [ready] is never cleared: once it is true it is true after any
    run of the event loop, whatever is called and whatever throws. *)
Theorem ready_is_never_cleared (cs : list Control) (g : Globals) :
  ready g = true -> ready (eventLoop cs g) = true.
Proof.
  apply (preserves_eventLoop (fun g => ready g = true)).
  - intros g0 g' [= _ Hr] H. rewrite Hr. exact H.
  - intros dt g0 H. rewrite update_keeps_ready. exact H.
  - intros [] _. reflexivity.
Qed.

Lemma ready_is_never_cleared_witness :
  ready (eventLoop [Resize 2000 600; Frame 1 40; Stop; Start] Demo.started) = true.
Proof.
  apply ready_is_never_cleared. reflexivity.
Defined.

(** ** More on render *)

(** X15.  The border frames the lens.  On a ready viewer with the canvas
    bound and a scaled border whose sizes are not negative, the last thing
    [render] draws is the scaled border, whole and centred at the mouse,
    and the rectangle the lens was drawn into just before lies within the
    rectangle the border covers. *)
Theorem border_frames_lens (dt : Q) (g : Globals) (cv : Canvas.t) :
  ready g = true ->
  canvas g = Some cv ->
  0 <= Canvas.width (borderCanvas g) ->
  0 <= Canvas.height (borderCanvas g) ->
  exists fill rect foreground sx sy sWidth sHeight dx dy dWidth dHeight bx by_ cv',
    render dt g = (Normal tt, set_canvas (Some cv') g) /\
    Canvas.drawn cv' =
      Canvas.drawn cv ++
      [fill; rect; foreground;
       DrawImage9 (OfCanvas RefBackgroundCanvas)
         sx sy sWidth sHeight dx dy dWidth dHeight;
       DrawImage3 (OfCanvas RefBorderCanvas) bx by_] /\
    centre bx (Canvas.width (borderCanvas g)) == Point.x (mouse g) /\
    centre by_ (Canvas.height (borderCanvas g)) == Point.y (mouse g) /\
    within dx dWidth bx (Canvas.width (borderCanvas g)) /\
    within dy dHeight by_ (Canvas.height (borderCanvas g)).
Proof.
  intros Hr Hc Hw Hh. do 14 eexists.
  split; [exact (render_ready dt g cv Hr Hc)|].
  split.
  { cbn [fold_left Canvas.record Canvas.drawn]. rewrite <- !app_assoc.
    reflexivity. }
  unfold centre, within.
  set (bw := Canvas.width (borderCanvas g)) in *.
  set (bh := Canvas.height (borderCanvas g)) in *.
  assert (H1 : bw * 0.937 / 2 == (937 # 2000) * bw) by field.
  assert (H2 : bh * 0.937 / 2 == (937 # 2000) * bh) by field.
  assert (H3 : bw * 0.937 == (937 # 1000) * bw) by field.
  assert (H4 : bh * 0.937 == (937 # 1000) * bh) by field.
  assert (H5 : bw / 2 == (1 # 2) * bw) by field.
  assert (H6 : bh / 2 == (1 # 2) * bh) by field.
  repeat split; lra.
Qed.

Lemma border_frames_lens_witness :
  exists fill rect foreground sx sy sWidth sHeight dx dy dWidth dHeight bx by_ cv cv',
    canvas Demo.lens = Some cv /\
    render 16 Demo.lens = (Normal tt, set_canvas (Some cv') Demo.lens) /\
    Canvas.drawn cv' =
      Canvas.drawn cv ++
      [fill; rect; foreground;
       DrawImage9 (OfCanvas RefBackgroundCanvas)
         sx sy sWidth sHeight dx dy dWidth dHeight;
       DrawImage3 (OfCanvas RefBorderCanvas) bx by_] /\
    within dx dWidth bx 200 /\ within dy dHeight by_ 150.
Proof.
  destruct (border_frames_lens 16 Demo.lens _ eq_refl eq_refl)
    as (fill & rect & fgOp & sx & sy & sW & sH & dx & dy & dW & dH & bx & by_
        & cv' & Hrender & Hdrawn & _ & _ & Hx & Hy).
  - vm_compute. discriminate.
  - vm_compute. discriminate.
  - exists fill, rect, fgOp, sx, sy, sW, sH, dx, dy, dW, dH, bx, by_.
    eexists. exists cv'.
    split; [reflexivity|]. split; [exact Hrender|]. split; [exact Hdrawn|].
    split; [exact Hx|exact Hy].
Defined.

(** X16.  No gap beside the panorama.  On a ready viewer with the canvas
    bound and the offset within the travel limit, [render] first fills the
    whole canvas and then draws the scaled foreground at [(-offset, 0)], and
    the width of the canvas lies within the width the foreground covers. *)
Theorem foreground_covers_canvas_width (dt : Q) (g : Globals) (cv : Canvas.t) :
  ready g = true ->
  canvas g = Some cv ->
  0 <= imageOffsetX g ->
  imageOffsetX g <= Canvas.width (foregroundCanvas g) - Canvas.width cv ->
  exists fill dx dy lens border cv',
    render dt g = (Normal tt, set_canvas (Some cv') g) /\
    Canvas.drawn cv' =
      Canvas.drawn cv ++
      [fill; FillRect 0 0 (Canvas.width cv) (Canvas.height cv);
       DrawImage3 (OfCanvas RefForegroundCanvas) dx dy; lens; border] /\
    dx == - imageOffsetX g /\ dy == 0 /\
    within 0 (Canvas.width cv) dx (Canvas.width (foregroundCanvas g)).
Proof.
  intros Hr Hc Hlo Hhi. do 6 eexists.
  split; [exact (render_ready dt g cv Hr Hc)|].
  split.
  { cbn [fold_left Canvas.record Canvas.drawn]. rewrite <- !app_assoc.
    reflexivity. }
  unfold within. repeat split; lra.
Qed.

Lemma foreground_covers_canvas_width_witness :
  exists fill dx dy lens border cv cv',
    canvas Demo.leftHeld = Some cv /\
    render 16 Demo.leftHeld = (Normal tt, set_canvas (Some cv') Demo.leftHeld) /\
    Canvas.drawn cv' =
      Canvas.drawn cv ++
      [fill; FillRect 0 0 800 600;
       DrawImage3 (OfCanvas RefForegroundCanvas) dx dy; lens; border] /\
    dx == - (400) /\ within 0 800 dx 1200.
Proof.
  destruct (foreground_covers_canvas_width 16 Demo.leftHeld _ eq_refl eq_refl)
    as (fill & dx & dy & lens & border & cv' & Hrender & Hdrawn & Hdx & _ & Hin).
  - vm_compute. discriminate.
  - vm_compute. discriminate.
  - exists fill, dx, dy, lens, border. eexists. exists cv'.
    split; [reflexivity|]. split; [exact Hrender|]. split; [exact Hdrawn|].
    split; [exact Hdx|exact Hin].
Defined.

(** The [mousemove] listener with the canvas bound: the mouse becomes the
    pointer position relative to the canvas element, nothing else changes. *)
Lemma onmousemove_bound clientX clientY g cv :
  canvas g = Some cv ->
  onmousemove clientX clientY g =
    (Normal tt,
     set_mouse {| Point.x := clientX - Rect.left (Canvas.rect cv);
                  Point.y := clientY - Rect.top (Canvas.rect cv) |} g).
Proof.
  intros Hc. unfold onmousemove, getMousePosition. js_unfold. rewrite Hc.
  destruct g; reflexivity.
Qed.

(** X17.  The lens follows the pointer.  With the canvas bound, a mouse
    move changes nothing but [mouse], which becomes the pointer position
    minus the left and top of the canvas element; on a ready viewer the
    next [render] then centres the lens it draws at exactly that point of
    the canvas. *)
Theorem lens_follows_pointer (clientX clientY dt : Q) (g : Globals) (cv : Canvas.t) :
  ready g = true ->
  canvas g = Some cv ->
  let px := clientX - Rect.left (Canvas.rect cv) in
  let py := clientY - Rect.top (Canvas.rect cv) in
  exists g1 fill rect foreground border sx sy sWidth sHeight dx dy dWidth dHeight cv',
    onmousemove clientX clientY g = (Normal tt, g1) /\
    g1 = set_mouse {| Point.x := px; Point.y := py |} g /\
    render dt g1 = (Normal tt, set_canvas (Some cv') g1) /\
    Canvas.drawn cv' =
      Canvas.drawn cv ++
      [fill; rect; foreground;
       DrawImage9 (OfCanvas RefBackgroundCanvas)
         sx sy sWidth sHeight dx dy dWidth dHeight;
       border] /\
    centre dx dWidth == px /\ centre dy dHeight == py /\
    centre sx sWidth == px + imageOffsetX g /\ centre sy sHeight == py.
Proof.
  intros Hr Hc px py. eexists. do 13 eexists.
  split; [exact (onmousemove_bound clientX clientY g cv Hc)|].
  split; [reflexivity|].
  split; [exact (render_ready dt (set_mouse _ g) cv Hr Hc)|].
  split.
  { cbn [fold_left Canvas.record Canvas.drawn]. rewrite <- !app_assoc.
    reflexivity. }
  unfold centre. cbn [mouse set_mouse Point.x Point.y imageOffsetX borderCanvas].
  subst px py. split; [|split; [|split]]; field.
Qed.

Lemma lens_follows_pointer_witness :
  exists g1 sx sy sWidth sHeight dx dy dWidth dHeight,
    onmousemove 310 220 Demo.started = (Normal tt, g1) /\
    Point.x (mouse g1) == 300 /\ Point.y (mouse g1) == 200 /\
    In (DrawImage9 (OfCanvas RefBackgroundCanvas)
          sx sy sWidth sHeight dx dy dWidth dHeight)
       (match canvas (snd (render 16 g1)) with
        | Some c => Canvas.drawn c
        | None => []
        end) /\
    centre dx dWidth == 300 /\ centre dy dHeight == 200.
Proof.
  destruct (lens_follows_pointer 310 220 16 Demo.started _ eq_refl eq_refl)
    as (g1 & fill & rect & fgOp & border & sx & sy & sW & sH & dx & dy & dW & dH
        & cv' & Hmove & Hg1 & Hrender & Hdrawn & Hdx & Hdy & _).
  exists g1, sx, sy, sW, sH, dx, dy, dW, dH.
  split; [exact Hmove|].
  split; [rewrite Hg1; reflexivity|]. split; [rewrite Hg1; reflexivity|].
  split.
  - rewrite Hrender. cbn [snd canvas set_canvas]. rewrite Hdrawn.
    apply in_or_app. right. cbn [In]. do 3 right. left. reflexivity.
  - split; [rewrite Hdx|rewrite Hdy]; reflexivity.
Defined.

(** X18.  [render] keeps no state of its own and does not use [dt]: on a
    ready viewer with the canvas bound it changes nothing but the drawing
    history of the canvas, to which it appends five operations, and a
    second [render], with whatever [dt], appends the same five again. *)
Theorem render_is_repeatable (dt dt' : Q) (g : Globals) (cv : Canvas.t) :
  ready g = true ->
  canvas g = Some cv ->
  exists ops,
    length ops = 5%nat /\
    render dt g =
      (Normal tt,
       set_canvas (Some (fold_left (fun c op => Canvas.record op c) ops cv)) g) /\
    render dt' (snd (render dt g)) =
      (Normal tt,
       set_canvas
         (Some (fold_left (fun c op => Canvas.record op c) (ops ++ ops) cv)) g).
Proof.
  intros Hr Hc. eexists. split; [|split].
  2: exact (render_ready dt g cv Hr Hc).
  - reflexivity.
  - rewrite (render_ready dt g cv Hr Hc). cbn [snd].
    rewrite (render_ready dt' (set_canvas _ g) _ Hr eq_refl).
    destruct g; reflexivity.
Qed.

Lemma render_is_repeatable_witness :
  exists cv ops,
    canvas Demo.lens = Some cv /\
    length ops = 5%nat /\
    render 16 Demo.lens =
      (Normal tt,
       set_canvas (Some (fold_left (fun c op => Canvas.record op c) ops cv))
         Demo.lens) /\
    render 1000 (snd (render 16 Demo.lens)) =
      (Normal tt,
       set_canvas
         (Some (fold_left (fun c op => Canvas.record op c) (ops ++ ops) cv))
         Demo.lens).
Proof.
  destruct (render_is_repeatable 16 1000 Demo.lens _ eq_refl eq_refl)
    as (ops & Hlen & Hfirst & Hsecond).
  eexists. exists ops.
  split; [reflexivity|]. split; [exact Hlen|]. split; assumption.
Defined.

(** ** More on resizing and start-up *)

(** What [resizeCanvas] leaves alone on a ready viewer with the canvas bound
    and the three images loaded. *)
Lemma resizeCanvas_frame g el fi bi di :
  ready g = true ->
  canvas g = Some el ->
  foregroundImage g = Some fi ->
  backgroundImage g = Some bi ->
  borderImage g = Some di ->
  exists g' cv',
    resizeCanvas g = (Normal tt, g') /\
    canvas g' = Some cv' /\
    Canvas.rect cv' = Canvas.rect el /\
    Canvas.drawn cv' = Canvas.drawn el /\
    ready g' = true /\
    foregroundImage g' = Some fi /\
    backgroundImage g' = Some bi /\
    borderImage g' = Some di /\
    imageOffsetX g' = imageOffsetX g /\
    mouse g' = mouse g /\
    g_keys g' = g_keys g /\
    previousTime g' = previousTime g /\
    driverFields g' = driverFields g.
Proof.
  intros Hr Hc Hf Hb Hd. destruct g.
  cbn [ready canvas foregroundImage backgroundImage borderImage] in *. subst.
  destruct backgroundCanvas0 as [? ? ? [[|? ?]|] ?];
    destruct foregroundCanvas0 as [? ? ? [[|? ?]|] ?];
    destruct borderCanvas0 as [? ? ? [[|? ?]|] ?];
    (eexists; eexists; split;
     [lazy -[Qmult Qdiv Math_round inject_Z]; reflexivity|];
     repeat split; reflexivity).
Qed.

Lemma resizeCanvas_not_ready g :
  ready g = false -> resizeCanvas g = (Normal tt, g).
Proof.
  intros Hr. unfold resizeCanvas. js_unfold. rewrite Hr. reflexivity.
Qed.

(** X19.  Resizes before the viewer is ready are ignored: while [ready] is
    false and no canvas is bound, [window.onresize] returns normally
    without touching the globals, so any number of resizes of the window
    leaves them as they were. *)
Theorem resize_before_ready_is_ignored (g : Globals) :
  ready g = false ->
  canvas g = None ->
  (forall width height, onresize width height g = (Normal tt, g)) /\
  (forall sizes : list (Q * Q),
     eventLoop (map (fun s => Resize (fst s) (snd s)) sizes) g = g).
Proof.
  intros Hr Hc.
  assert (Hone : forall width height, onresize width height g = (Normal tt, g)).
  { intros width height. unfold onresize. js_unfold. rewrite Hc.
    apply resizeCanvas_not_ready, Hr. }
  split; [exact Hone|].
  intros sizes. induction sizes as [|[w h] rest IH]; [reflexivity|].
  cbn [map eventLoop control fst snd]. rewrite Hone. exact IH.
Qed.

Lemma resize_before_ready_is_ignored_witness :
  onresize 1024 768 initial = (Normal tt, initial) /\
  eventLoop [Resize 1024 768; Resize 640 480] initial = initial.
Proof.
  destruct (resize_before_ready_is_ignored initial eq_refl eq_refl)
    as [Hone Hmany].
  split; [apply Hone|]. exact (Hmany [(1024, 768); (640, 480)]).
Defined.

(** X20.  Resizing twice is resizing once: on a ready viewer with the canvas
    bound and the images loaded, a second [resizeCanvas] with the layout
    unchanged returns normally and leaves the scale, the size of the canvas
    and the sizes of the three scaled canvases as the first left them. *)
Theorem resize_twice_same_sizes (g : Globals) (el : Canvas.t) (fi bi di : Image.t) :
  ready g = true ->
  canvas g = Some el ->
  foregroundImage g = Some fi ->
  backgroundImage g = Some bi ->
  borderImage g = Some di ->
  exists g1 g2 cv1 cv2,
    resizeCanvas g = (Normal tt, g1) /\
    resizeCanvas g1 = (Normal tt, g2) /\
    canvas g1 = Some cv1 /\ canvas g2 = Some cv2 /\
    Canvas.width cv2 = Canvas.width cv1 /\
    Canvas.height cv2 = Canvas.height cv1 /\
    imageScale g2 = imageScale g1 /\
    Canvas.width (backgroundCanvas g2) = Canvas.width (backgroundCanvas g1) /\
    Canvas.height (backgroundCanvas g2) = Canvas.height (backgroundCanvas g1) /\
    Canvas.width (foregroundCanvas g2) = Canvas.width (foregroundCanvas g1) /\
    Canvas.height (foregroundCanvas g2) = Canvas.height (foregroundCanvas g1) /\
    Canvas.width (borderCanvas g2) = Canvas.width (borderCanvas g1) /\
    Canvas.height (borderCanvas g2) = Canvas.height (borderCanvas g1).
Proof.
  intros Hr Hc Hf Hb Hd.
  destruct (resizeCanvas_frame g el fi bi di Hr Hc Hf Hb Hd)
    as (g1 & cv1 & Hrun1 & Hc1 & Hrect1 & _ & Hr1 & Hf1 & Hb1 & Hd1 & _).
  destruct (resizeCanvas_ready g el fi bi di Hr Hc Hf Hb Hd)
    as (g1' & cv1' & Hrun1' & Hc1' & Hw1 & Hh1 & Hs1 & Hbw1 & Hbh1 & Hfw1
        & Hfh1 & Hdw1 & Hdh1).
  rewrite Hrun1 in Hrun1'. injection Hrun1' as <-.
  rewrite Hc1 in Hc1'. injection Hc1' as <-.
  destruct (resizeCanvas_ready g1 cv1 fi bi di Hr1 Hc1 Hf1 Hb1 Hd1)
    as (g2 & cv2 & Hrun2 & Hc2 & Hw2 & Hh2 & Hs2 & Hbw2 & Hbh2 & Hfw2
        & Hfh2 & Hdw2 & Hdh2).
  exists g1, g2, cv1, cv2.
  assert (Hw : Canvas.width cv2 = Canvas.width cv1) by congruence.
  assert (Hh : Canvas.height cv2 = Canvas.height cv1) by congruence.
  assert (Hs : imageScale g2 = imageScale g1) by congruence.
  repeat (split; [assumption|]).
  rewrite Hbw2, Hbh2, Hfw2, Hfh2, Hdw2, Hdh2, Hs.
  repeat split; symmetry; assumption.
Qed.

Lemma resize_twice_same_sizes_witness :
  exists g1 g2,
    resizeCanvas Demo.widened = (Normal tt, g1) /\
    resizeCanvas g1 = (Normal tt, g2) /\
    imageScale g2 = imageScale g1 /\
    Canvas.width (foregroundCanvas g2) = Canvas.width (foregroundCanvas g1).
Proof.
  destruct (resize_twice_same_sizes Demo.widened _ _ _ _
              eq_refl eq_refl eq_refl eq_refl eq_refl)
    as (g1 & g2 & cv1 & cv2 & H1 & H2 & _ & _ & _ & _ & Hs & _ & _ & Hfw & _).
  exists g1, g2. repeat split; assumption.
Defined.

(** X21.  The two panoramas are scaled to the same size: on a ready viewer
    with the canvas bound, when the foreground and background images have
    equal width and equal height, as [main] asserts, [resizeCanvas] leaves
    the scaled background and the scaled foreground with the same width and
    the same height. *)
Theorem scaled_layers_have_equal_size
    (g : Globals) (el : Canvas.t) (fi bi di : Image.t) :
  ready g = true ->
  canvas g = Some el ->
  foregroundImage g = Some fi ->
  backgroundImage g = Some bi ->
  borderImage g = Some di ->
  Image.width fi == Image.width bi ->
  Image.height fi == Image.height bi ->
  exists g',
    resizeCanvas g = (Normal tt, g') /\
    Canvas.width (backgroundCanvas g') = Canvas.width (foregroundCanvas g') /\
    Canvas.height (backgroundCanvas g') = Canvas.height (foregroundCanvas g').
Proof.
  intros Hr Hc Hf Hb Hd Hw Hh.
  destruct (resizeCanvas_ready g el fi bi di Hr Hc Hf Hb Hd)
    as (g' & cv' & Hrun & _ & _ & _ & _ & Hbw & Hbh & Hfw & Hfh & _).
  exists g'. split; [exact Hrun|].
  rewrite Hbw, Hbh, Hfw, Hfh.
  split; f_equal; apply Math_round_comp; [rewrite Hw|rewrite Hh]; reflexivity.
Qed.

Lemma scaled_layers_have_equal_size_witness :
  exists g',
    resizeCanvas Demo.started = (Normal tt, g') /\
    Canvas.width (backgroundCanvas g') = Canvas.width (foregroundCanvas g') /\
    Canvas.height (backgroundCanvas g') = Canvas.height (foregroundCanvas g').
Proof.
  apply (scaled_layers_have_equal_size Demo.started _ _ _ _
           eq_refl eq_refl eq_refl eq_refl eq_refl); reflexivity.
Defined.

(** [main] up to the point where the viewer is declared ready. *)
Lemma main_cases fg bg border el g :
  let g0 := set_borderImage (Some border)
              (set_backgroundImage (Some bg)
                 (set_foregroundImage (Some fg) g)) in
  main fg bg border el g =
    if Qeq_bool (Image.width fg) (Image.width bg)
       && Qeq_bool (Image.height fg) (Image.height bg)
    then (_ ← resizeCanvas; startAnimation) (set_ready true (set_canvas el g0))
    else (Throw (Error "Assertion failed!"), g0).
Proof.
  destruct g. unfold main, assert, assert_msg. js_unfold.
  cbn [foregroundImage backgroundImage borderImage set_foregroundImage
       set_backgroundImage set_borderImage isDefined negb].
  destruct (Qeq_bool (Image.width fg) (Image.width bg));
    destruct (Qeq_bool (Image.height fg) (Image.height bg)); reflexivity.
Qed.

(** X22.  [main] refuses panoramas of different sizes: when the foreground
    and the background image differ in width or in height, [main] throws
    the assertion failure having assigned the three image variables and
    nothing else, so no canvas is bound, [ready] is not set and the loop is
    not started. *)
Theorem main_rejects_mismatched_images
    (fg bg border : Image.t) (el : option Canvas.t) (g : Globals) :
  ~ (Image.width fg == Image.width bg /\ Image.height fg == Image.height bg) ->
  main fg bg border el g =
    (Throw (Error "Assertion failed!"),
     set_borderImage (Some border)
       (set_backgroundImage (Some bg) (set_foregroundImage (Some fg) g))).
Proof.
  intros Hne. rewrite main_cases. cbv zeta.
  destruct (Qeq_bool (Image.width fg) (Image.width bg)) eqn:Hw;
    destruct (Qeq_bool (Image.height fg) (Image.height bg)) eqn:Hh;
    cbn [andb]; try reflexivity.
  exfalso. apply Hne. split; apply Qeq_bool_iff; assumption.
Qed.

Lemma main_rejects_mismatched_images_witness :
  exists g',
    main Demo.happy Demo.phone Demo.phone (Some Demo.element) initial
      = (Throw (Error "Assertion failed!"), g') /\
    canvas g' = None /\ ready g' = false /\ animating g' = false /\
    frameRequests g' = [].
Proof.
  eexists. split.
  - apply (main_rejects_mismatched_images Demo.happy Demo.phone Demo.phone).
    intros [Hw _]. vm_compute in Hw. discriminate Hw.
  - repeat split; reflexivity.
Defined.





(** X24.  A panorama that does not outgrow the viewport leaves a blank,
    stalled viewer.  When the two panoramas have equal sizes and the canvas
    element is found but, at the scale that fits its height, the rounded
    width of the foreground does not exceed the width of the element,
    [main] on an idle viewer throws the assertion failure of the first
    tick: [ready] and [animating] are true, nothing has been drawn on the
    canvas, no frame has been requested, and [startAnimation] does nothing
    afterwards. *)
Theorem main_stalls_on_narrow_panorama
    (fg bg border : Image.t) (e : Canvas.t) (g : Globals) :
  Image.width fg == Image.width bg ->
  Image.height fg == Image.height bg ->
  animating g = false ->
  inject_Z (Math_round (Rect.height (Canvas.rect e) / Image.height fg
                        * Image.width fg))
    <= Rect.width (Canvas.rect e) ->
  exists g' cv',
    main fg bg border (Some e) g = (Throw (Error "Assertion failed!"), g') /\
    ready g' = true /\
    animating g' = true /\
    canvas g' = Some cv' /\
    Canvas.drawn cv' = Canvas.drawn e /\
    frameRequests g' = frameRequests g /\
    startAnimation g' = (Normal tt, g').
Proof.
  intros Hw Hh Ha Hwide. rewrite main_cases. cbv zeta.
  apply Qeq_bool_iff in Hw, Hh. rewrite Hw, Hh. cbn [andb].
  set (gA := set_ready true (set_canvas (Some e) _)).
  destruct (resizeCanvas_frame gA e fg bg border
              eq_refl eq_refl eq_refl eq_refl eq_refl)
    as (g1 & cv1 & Hrun & Hc1 & _ & Hd1 & Hr1 & _ & _ & _ & _ & _ & _ & _ & Hdrv).
  destruct (resizeCanvas_ready gA e fg bg border
              eq_refl eq_refl eq_refl eq_refl eq_refl)
    as (g1' & cv1' & Hrun' & Hc1' & Hcw & Hch & Hs & _ & _ & Hfw & _).
  rewrite Hrun in Hrun'. injection Hrun' as <-.
  rewrite Hc1 in Hc1'. injection Hc1' as <-.
  unfold driverFields in Hdrv. cbn in Hdrv.
  injection Hdrv as Ha1 Hid1 Hf1 Hn1.
  assert (Hidle : animating g1 = false) by congruence.
  assert (Hge : Canvas.width (foregroundCanvas g1) <= Canvas.width cv1).
  { rewrite Hfw, Hs, Hcw, Hch. exact Hwide. }
  exists (set_previousTime 0 (set_previousTime 0 (set_animating true g1))), cv1.
  js_unfold. rewrite Hrun, (startAnimation_idle g1 Hidle).
  rewrite (animate_fails 0 (set_previousTime 0 (set_animating true g1)) cv1
             eq_refl Hc1 Hge).
  split; [reflexivity|]. split; [exact Hr1|]. split; [reflexivity|].
  split; [exact Hc1|]. split; [exact Hd1|]. split; [exact Hf1|].
  apply startAnimation_active. reflexivity.
Qed.

Lemma main_stalls_on_narrow_panorama_witness :
  exists g' cv',
    main Demo.square Demo.square Demo.phone (Some Demo.element) initial
      = (Throw (Error "Assertion failed!"), g') /\
    ready g' = true /\
    animating g' = true /\
    canvas g' = Some cv' /\
    Canvas.drawn cv' = [] /\
    frameRequests g' = [] /\
    startAnimation g' = (Normal tt, g').
Proof.
  apply (main_stalls_on_narrow_panorama
           Demo.square Demo.square Demo.phone Demo.element initial).
  - reflexivity.
  - reflexivity.
  - reflexivity.
  - vm_compute. discriminate.
Defined.

(** ** The ready flag and the canvas

    [main] binds the canvas and sets [ready] in two consecutive statements,
    and nothing else writes either variable, so in every state the script
    can be in no canvas is bound while [ready] is false. *)

Lemma keepsReadyView_ret {A} (a : A) : keepsReadyView (mret a).
Proof. intros g. reflexivity. Qed.

Lemma keepsReadyView_bind {A B} (m : JS A) (k : A -> JS B) :
  keepsReadyView m -> (forall a, keepsReadyView (k a)) ->
  keepsReadyView (m ≫= k).
Proof.
  intros Hm Hk g. specialize (Hm g). js_unfold.
  destruct (m g) as [[a|e] g1]; cbn [snd] in *.
  - rewrite Hk. exact Hm.
  - exact Hm.
Qed.

Lemma keepsReadyView_gets {A} (f : Globals -> A) : keepsReadyView (gets f).
Proof. intros g. reflexivity. Qed.

Lemma keepsReadyView_lift {A} (c : completion A) : keepsReadyView (lift c).
Proof. intros g. reflexivity. Qed.

Lemma keepsReadyView_throw {A} (e : exn) : keepsReadyView (@throw A e).
Proof. intros g. reflexivity. Qed.

Lemma keepsReadyView_modify (f : Globals -> Globals) :
  (forall g, readyView (f g) = readyView g) -> keepsReadyView (modify f).
Proof. intros Hf g. apply Hf. Qed.

Lemma keepsReadyView_defined {A} name (v : option A) :
  keepsReadyView (defined name v).
Proof. destruct v; intros g; reflexivity. Qed.

(** Writing through a reference to a canvas: a canvas that is not bound
    cannot be written to, and one that is bound stays bound. *)
Lemma keepsReadyView_onCanvas r f : keepsReadyView (onCanvas r f).
Proof.
  intros g. destruct g as [c]. destruct r; [destruct c|..]; reflexivity.
Qed.

Create HintDb readiness.

#[local] Hint Resolve keepsReadyView_ret keepsReadyView_gets
  keepsReadyView_lift keepsReadyView_throw keepsReadyView_defined
  keepsReadyView_onCanvas : readiness.

Ltac steady_step :=
  first
    [ solve [auto with readiness]
    | apply keepsReadyView_bind; [|intros ?]
    | apply keepsReadyView_modify; intros []; reflexivity
    | match goal with
      | |- keepsReadyView (if ?b then _ else _) => destruct b
      | |- keepsReadyView (match ?x with _ => _ end) => destruct x
      | |- keepsReadyView (let _ := _ in _) => cbv zeta
      end ].

Ltac steady := repeat steady_step.

Lemma keepsReadyView_getImage r : keepsReadyView (getImage r).
Proof. unfold getImage. steady. Qed.

Lemma keepsReadyView_getCanvas r : keepsReadyView (getCanvas r).
Proof. unfold getCanvas. steady. Qed.

#[local] Hint Resolve keepsReadyView_getImage keepsReadyView_getCanvas : readiness.

Lemma keepsReadyView_widthOf d : keepsReadyView (widthOf d).
Proof. unfold widthOf. steady. Qed.

Lemma keepsReadyView_heightOf d : keepsReadyView (heightOf d).
Proof. unfold heightOf. steady. Qed.

Lemma keepsReadyView_ctx r op : keepsReadyView (ctx r op).
Proof. unfold ctx. steady. Qed.

#[local] Hint Resolve keepsReadyView_widthOf keepsReadyView_heightOf
  keepsReadyView_ctx : readiness.

Lemma keepsReadyView_resizeImage s t scale :
  keepsReadyView (resizeImage s t scale).
Proof. unfold resizeImage. steady. Qed.

#[local] Hint Resolve keepsReadyView_resizeImage : readiness.

Lemma keepsReadyView_resizeImages : keepsReadyView resizeImages.
Proof. unfold resizeImages. steady. Qed.

#[local] Hint Resolve keepsReadyView_resizeImages : readiness.

Lemma keepsReadyView_resizeCanvas : keepsReadyView resizeCanvas.
Proof. unfold resizeCanvas. steady. Qed.

#[local] Hint Resolve keepsReadyView_resizeCanvas : readiness.

Lemma keepsReadyView_onresize w h : keepsReadyView (onresize w h).
Proof.
  unfold onresize. apply keepsReadyView_bind; [|intros ?; auto with readiness].
  apply keepsReadyView_modify. intros g. destruct g as [[c|]]; reflexivity.
Qed.

Lemma keepsReadyView_update dt : keepsReadyView (update dt).
Proof. unfold update. steady. Qed.

Lemma keepsReadyView_render dt : keepsReadyView (render dt).
Proof. unfold render. steady. Qed.

#[local] Hint Resolve keepsReadyView_onresize keepsReadyView_update
  keepsReadyView_render : readiness.

Lemma keepsReadyView_step dt : keepsReadyView (step dt).
Proof. unfold step. steady. Qed.

Lemma keepsReadyView_requestAnimationFrame :
  keepsReadyView requestAnimationFrame.
Proof. unfold requestAnimationFrame. steady. Qed.

Lemma keepsReadyView_cancelAnimationFrame h :
  keepsReadyView (cancelAnimationFrame h).
Proof. unfold cancelAnimationFrame. steady. Qed.

#[local] Hint Resolve keepsReadyView_step keepsReadyView_requestAnimationFrame
  keepsReadyView_cancelAnimationFrame : readiness.

Lemma keepsReadyView_stopAnimation : keepsReadyView stopAnimation.
Proof. unfold stopAnimation. steady. Qed.

Lemma keepsReadyView_animate t : keepsReadyView (animate t).
Proof. unfold animate. steady. Qed.

#[local] Hint Resolve keepsReadyView_stopAnimation keepsReadyView_animate : readiness.

Lemma keepsReadyView_startAnimation : keepsReadyView startAnimation.
Proof. unfold startAnimation. steady. Qed.

Lemma keepsReadyView_runFrame id t : keepsReadyView (runFrame id t).
Proof. unfold runFrame. steady. Qed.

Lemma keepsReadyView_dispatch i : keepsReadyView (dispatch i).
Proof.
  destruct i; cbn [dispatch]; unfold onkeydown, onkeyup, onmousemove; steady.
Qed.

#[local] Hint Resolve keepsReadyView_startAnimation keepsReadyView_runFrame
  keepsReadyView_dispatch : readiness.

Lemma unboundUntilReady_view g g' :
  readyView g' = readyView g -> unboundUntilReady g -> unboundUntilReady g'.
Proof.
  unfold readyView, unboundUntilReady. intros [= Hr Hc] H Hf.
  rewrite Hr in Hf. specialize (H Hf). rewrite H in Hc.
  destruct (canvas g'); [discriminate Hc|reflexivity].
Qed.

(** [main] keeps the invariant: it fails before it touches the canvas, or
    it sets [ready] right after binding it. *)
Lemma main_unboundUntilReady fg bg border el g :
  unboundUntilReady g -> unboundUntilReady (snd (main fg bg border el g)).
Proof.
  intros H. rewrite main_cases. cbv zeta.
  destruct (Qeq_bool _ _ && Qeq_bool _ _).
  - assert (Hk : keepsReadyView (_ ← resizeCanvas; startAnimation)).
    { apply keepsReadyView_bind; [|intros ?]; auto with readiness. }
    intros Hf. specialize (Hk (set_ready true (set_canvas el
      (set_borderImage (Some border)
         (set_backgroundImage (Some bg) (set_foregroundImage (Some fg) g)))))).
    unfold readyView in Hk. injection Hk as Hr _.
    rewrite Hr in Hf. discriminate Hf.
  - cbn [snd]. refine (unboundUntilReady_view g _ _ H).
    destruct g; reflexivity.
Qed.

Lemma control_unboundUntilReady c g :
  unboundUntilReady g -> unboundUntilReady (snd (control c g)).
Proof.
  intros H. destruct c as [fg bg border el| | |id t|w h|i]; cbn [control].
  - apply main_unboundUntilReady, H.
  - exact (unboundUntilReady_view _ _ (keepsReadyView_startAnimation g) H).
  - exact (unboundUntilReady_view _ _ (keepsReadyView_stopAnimation g) H).
  - exact (unboundUntilReady_view _ _ (keepsReadyView_runFrame id t g) H).
  - exact (unboundUntilReady_view _ _ (keepsReadyView_onresize w h g) H).
  - exact (unboundUntilReady_view _ _ (keepsReadyView_dispatch i g) H).
Qed.

Lemma eventLoop_unboundUntilReady cs g :
  unboundUntilReady g -> unboundUntilReady (eventLoop cs g).
Proof.
  revert g. induction cs as [|c rest IH]; intros g H; cbn [eventLoop].
  - exact H.
  - apply IH, control_unboundUntilReady, H.
Qed.

(** C3.  Ready-flag gating.  In every state the event loop reaches from the
    initial one, by whatever calls and with whatever exceptions on the way:
    when [ready] is false, [render] draws nothing and changes nothing, and
    [update], and so [step], leaves all the globals, [imageOffsetX] among
    them, unchanged, because no canvas is bound yet and [update] stops at
    [canvas.width] before it writes anything; when [ready] is true and the
    canvas is bound, [render] sets the fill style to black, fills the whole
    canvas, and then draws the scaled foreground, the lens from the scaled
    background and the scaled border, in that order, and changes nothing but
    the canvas. *)
Theorem ready_flag_gating (cs : list Control) (dt : Q) :
  let g := eventLoop cs initial in
  (ready g = false ->
   render dt g = (Normal tt, g) /\
   canvas g = None /\
   update dt g = (Throw (TypeError "canvas"), g) /\
   snd (update dt g) = g /\
   imageOffsetX (snd (update dt g)) = imageOffsetX g /\
   snd (step dt g) = g) /\
  (ready g = true -> forall cv, canvas g = Some cv ->
   exists fx fy sx sy sWidth sHeight dx dy dWidth dHeight bx by_,
     render dt g =
       (Normal tt,
        set_canvas (Some (fold_left (fun c op => Canvas.record op c)
          [SetFillStyle "#000";
           FillRect 0 0 (Canvas.width cv) (Canvas.height cv);
           DrawImage3 (OfCanvas RefForegroundCanvas) fx fy;
           DrawImage9 (OfCanvas RefBackgroundCanvas)
             sx sy sWidth sHeight dx dy dWidth dHeight;
           DrawImage3 (OfCanvas RefBorderCanvas) bx by_]
          cv)) g)).
Proof.
  intros g. split.
  - intros Hr.
    assert (Hc : canvas g = None).
    { apply (eventLoop_unboundUntilReady cs initial); [|exact Hr].
      intros _. reflexivity. }
    pose proof (update_unbound dt g Hc) as Hu.
    split; [exact (render_not_ready dt g Hr)|]. split; [exact Hc|].
    split; [exact Hu|]. rewrite Hu. split; [reflexivity|].
    split; [reflexivity|].
    unfold step. js_unfold. rewrite Hu. reflexivity.
  - intros Hr cv Hc. do 12 eexists. exact (render_ready dt g cv Hr Hc).
Qed.

Lemma ready_flag_gating_witness :
  (render 16 initial = (Normal tt, initial) /\
   snd (update 16 initial) = initial) /\
  snd (update 16 (eventLoop [Handle (KeyDown KEY_ARROW_RIGHT); Start] initial))
    = eventLoop [Handle (KeyDown KEY_ARROW_RIGHT); Start] initial /\
  exists ops cv cv',
    canvas (eventLoop [Boot Demo.happy Demo.sad Demo.phone (Some Demo.element)]
              initial) = Some cv /\
    render 16
      (eventLoop [Boot Demo.happy Demo.sad Demo.phone (Some Demo.element)]
         initial)
      = (Normal tt,
         set_canvas (Some cv')
           (eventLoop [Boot Demo.happy Demo.sad Demo.phone (Some Demo.element)]
              initial)) /\
    cv' = fold_left (fun c op => Canvas.record op c) ops cv /\
    length ops = 5%nat.
Proof.
  destruct (ready_flag_gating [] 16) as [Hoff _].
  destruct (Hoff eq_refl) as (Hrender & _ & _ & Hupdate & _).
  split; [split; [exact Hrender|exact Hupdate]|].
  destruct (ready_flag_gating [Handle (KeyDown KEY_ARROW_RIGHT); Start] 16)
    as [Hoff' _].
  assert (Hr' : ready (eventLoop [Handle (KeyDown KEY_ARROW_RIGHT); Start]
                         initial) = false) by (vm_compute; reflexivity).
  destruct (Hoff' Hr') as (_ & _ & _ & Hupdate' & _).
  split; [exact Hupdate'|].
  destruct (ready_flag_gating
              [Boot Demo.happy Demo.sad Demo.phone (Some Demo.element)] 16)
    as [_ Hon].
  assert (Hr : ready (eventLoop
                        [Boot Demo.happy Demo.sad Demo.phone (Some Demo.element)]
                        initial) = true) by (vm_compute; reflexivity).
  destruct (canvas (eventLoop
                      [Boot Demo.happy Demo.sad Demo.phone (Some Demo.element)]
                      initial)) as [cv|] eqn:Hc.
  - destruct (Hon Hr cv eq_refl)
      as (fx & fy & sx & sy & sW & sH & dx & dy & dW & dH & bx & by_ & Heq).
    eexists. exists cv. eexists.
    split; [reflexivity|]. split; [exact Heq|]. split; reflexivity.
  - vm_compute in Hc. discriminate Hc.
Defined.
